(** * matrixone-operator: shallow embedding of the v1alpha1 helpers and of
      the DN-set reconciler, with the properties checked against them.

    Sources embedded here:
    - [api/core/v1alpha1/common_helpers.go]: the overlay merger
      ([OverlayPodMeta], [OverlayPodSpec], [OverlayMainContainer]), the
      failover query [StoresFailedFor], and the bucket-claim resolver
      ([ClaimedBucket], [UniqueBucketLabel]);
    - the [dnset] package: [buildDNSetConfigMap] and [syncPods];
    - the CNSet webhook test [should set default cache size].

    Conventions.  A Go [string] is a [string] (a sequence of bytes).  A Go
    slice is the list of its elements; where the code tests a slice, a map or
    a pointer against [nil] the field is an [option].  A Go function that
    returns [(T, error)] returns a [result T]; a nil-pointer dereference or a
    write into a nil map is the third outcome [Panic]. *)

From Stdlib Require Import ZArith List String Ascii Bool Lia.
From stdpp Require Import base option list gmap strings pretty.
Import ListNotations.

Local Open Scope string_scope.
Local Open Scope Z_scope.
Local Open Scope list_scope.

(* ===================================================================== *)
(** * Outcomes of Go calls                                                 *)
(* ===================================================================== *)

Module Go.

(** [error] values are compared only against [nil] by the code; they are
    carried as their message. *)
Definition error := string.

Inductive result (A : Type) : Type :=
| Ok (a : A)
| Err (e : error)
| Panic.
Arguments Ok {A} a.
Arguments Err {A} e.
Arguments Panic {A}.

Definition bind {A B} (r : result A) (k : A -> result B) : result B :=
  match r with
  | Ok a => k a
  | Err e => Err e
  | Panic => Panic
  end.

(** Dereference of a pointer: panics on [nil]. *)
Definition deref {A} (p : option A) : result A :=
  match p with
  | Some a => Ok a
  | None => Panic
  end.

Definition is_panic {A} (r : result A) : bool :=
  match r with Panic => true | _ => false end.

(** [fmt.Sprintf("%s-%s-%s", a, b, c)] *)
Definition Sprintf_s_s_s (a b c : string) : string :=
  a +:+ "-" +:+ b +:+ "-" +:+ c.

(** [[]byte(s)] *)
Definition bytes_of_string (s : string) : list Z :=
  List.map (fun c => Z.of_N (N_of_ascii c)) (list_ascii_of_string s).

End Go.

#[export] Instance result_bind : MBind Go.result := fun A B k r => Go.bind r k.
#[export] Instance result_ret : MRet Go.result := fun A a => Go.Ok a.

(* ===================================================================== *)
(** * crypto/sha1 and the [%x] verb                                        *)
(* ===================================================================== *)

Module Sha1.

Definition mask32 (x : Z) : Z := Z.land x 0xFFFFFFFF.

Definition add32 (x y : Z) : Z := mask32 (x + y).

Definition rotl (n : Z) (x : Z) : Z :=
  mask32 (Z.lor (Z.shiftl x n) (Z.shiftr x (32 - n))).

Definition not32 (x : Z) : Z := Z.lxor x 0xFFFFFFFF.

(** Big-endian encodings. *)
Definition be_bytes (n : nat) (x : Z) : list Z :=
  List.map (fun i => Z.land (Z.shiftr x (8 * Z.of_nat i)) 0xFF) (rev (seq 0 n)).

Definition be_word (bs : list Z) : Z :=
  fold_left (fun acc b => Z.lor (Z.shiftl acc 8) b) bs 0.

(** Message padding: a [0x80] byte, zeros up to 56 mod 64, then the bit
    length on 8 bytes. *)
Definition pad (msg : list Z) : list Z :=
  let len := Z.of_nat (length msg) in
  let zeros := Z.to_nat ((55 - len) mod 64) in
  msg ++ [0x80] ++ repeat 0 zeros ++ be_bytes 8 (8 * len).

Fixpoint chunks (fuel : nat) (n : nat) (l : list Z) : list (list Z) :=
  match fuel with
  | O => []
  | S fuel' =>
      match l with
      | [] => []
      | _ => firstn n l :: chunks fuel' n (skipn n l)
      end
  end.

Definition words_of_block (block : list Z) : list Z :=
  List.map be_word (chunks 16 4 block).

(** The message schedule, kept newest-first while it grows to 80 words. *)
Fixpoint extend (n : nat) (rw : list Z) : list Z :=
  match n with
  | O => rw
  | S n' =>
      let w := rotl 1 (Z.lxor (Z.lxor (nth 2 rw 0) (nth 7 rw 0))
                              (Z.lxor (nth 13 rw 0) (nth 15 rw 0))) in
      extend n' (w :: rw)
  end.

Definition schedule (block : list Z) : list Z :=
  rev (extend 64 (rev (words_of_block block))).

Record state := mkState { ha : Z; hb : Z; hc : Z; hd : Z; he : Z }.

Definition init : state :=
  mkState 0x67452301 0xEFCDAB89 0x98BADCFE 0x10325476 0xC3D2E1F0.

Definition round_f (i : nat) (b c d : Z) : Z :=
  if (i <? 20)%nat then Z.lor (Z.land b c) (Z.land (not32 b) d)
  else if (i <? 40)%nat then Z.lxor (Z.lxor b c) d
  else if (i <? 60)%nat then
    Z.lor (Z.lor (Z.land b c) (Z.land b d)) (Z.land c d)
  else Z.lxor (Z.lxor b c) d.

Definition round_k (i : nat) : Z :=
  if (i <? 20)%nat then 0x5A827999
  else if (i <? 40)%nat then 0x6ED9EBA1
  else if (i <? 60)%nat then 0x8F1BBCDC
  else 0xCA62C1D6.

Definition round (s : state) (iw : nat * Z) : state :=
  let '(i, w) := iw in
  let t := add32 (add32 (add32 (add32 (rotl 5 (ha s)) (round_f i (hb s) (hc s) (hd s)))
                               (he s)) (round_k i)) w in
  mkState t (ha s) (rotl 30 (hb s)) (hc s) (hd s).

Definition compress (h : state) (block : list Z) : state :=
  let ws := schedule block in
  let s := fold_left round (combine (seq 0 80) ws) h in
  mkState (add32 (ha h) (ha s)) (add32 (hb h) (hb s)) (add32 (hc h) (hc s))
          (add32 (hd h) (hd s)) (add32 (he h) (he s)).

(** [sha1.Sum]: the 20-byte digest. *)
Definition Sum (msg : list Z) : list Z :=
  let p := pad msg in
  let h := fold_left compress (chunks (length p) 64 p) init in
  be_bytes 4 (ha h) ++ be_bytes 4 (hb h) ++ be_bytes 4 (hc h)
    ++ be_bytes 4 (hd h) ++ be_bytes 4 (he h).

Definition hex_digit (d : Z) : ascii :=
  ascii_of_N (Z.to_N (if d <? 10 then 48 + d else 87 + d)).

(** [fmt.Sprintf("%x", bytes)]: two lower-case hex digits per byte. *)
Fixpoint hex (bs : list Z) : string :=
  match bs with
  | [] => EmptyString
  | b :: rest =>
      String (hex_digit (Z.shiftr b 4 mod 16)) (String (hex_digit (b mod 16)) (hex rest))
  end.

Definition is_byte (b : Z) : Prop := 0 <= b < 256.

Definition is_hex_char (c : ascii) : bool :=
  existsb (Ascii.eqb c) (list_ascii_of_string "0123456789abcdef").

End Sha1.

(* ===================================================================== *)
(** * The Kubernetes API types the helpers touch                           *)
(* ===================================================================== *)

Module K8s.

(** API payloads that the operator hands through without looking inside
    (affinity, probes, tolerations, volume sources, ...) are carried in
    their serialised form. *)
Definition payload := string.

Module ObjectMeta.
Record t := mk {
  Name : string;
  Namespace : string;
  Labels : option (gmap string string);
  Annotations : option (gmap string string)
}.
End ObjectMeta.

Module Volume.
Record t := mk { Name : string; VolumeSource : payload }.
End Volume.

Module EnvVar.
Record t := mk { Name : string; Value : string; ValueFrom : option payload }.
End EnvVar.

Module VolumeMount.
Record t := mk { Name : string; ReadOnly : bool; MountPath : string }.
End VolumeMount.

Module Container.
Record t := mk {
  Name : string;
  Image : string;
  Command : list string;
  Args : list string;
  EnvFrom : list payload;
  Env : list EnvVar.t;
  Resources : payload;
  VolumeMounts : list VolumeMount.t;
  LivenessProbe : option payload;
  ReadinessProbe : option payload;
  Lifecycle : option payload;
  ImagePullPolicy : string
}.
End Container.

Module PodSpec.
Record t := mk {
  Volumes : list Volume.t;
  InitContainers : list Container.t;
  Containers : list Container.t;
  TerminationGracePeriodSeconds : option Z;
  NodeSelector : option (gmap string string);
  ServiceAccountName : string;
  SecurityContext : option payload;
  ImagePullSecrets : list payload;
  Affinity : option payload;
  Tolerations : list payload;
  HostAliases : list payload;
  PriorityClassName : string;
  DNSConfig : option payload;
  ReadinessGates : list string;
  RuntimeClassName : option string;
  TopologySpreadConstraints : list payload
}.
End PodSpec.

Module ConfigMap.
Record t := mk { Meta : ObjectMeta.t; Data : gmap string string }.
End ConfigMap.

End K8s.
Import K8s.

(* ===================================================================== *)
(** * time.Time and time.Duration                                          *)
(* ===================================================================== *)

Module Time.

(** An instant is its number of nanoseconds since the epoch; a
    [Duration] is an [int64] count of nanoseconds. *)
Definition t := Z.
Definition Duration := Z.

Definition minDuration : Duration := - 2 ^ 63.
Definition maxDuration : Duration := 2 ^ 63 - 1.

Definition is_duration (d : Z) : Prop := minDuration <= d <= maxDuration.

(** [t.Sub(u)]: the difference, saturated at the ends of [Duration]. *)
Definition Sub (a u : t) : Duration :=
  if a - u <? minDuration then minDuration
  else if maxDuration <? a - u then maxDuration
  else a - u.

(** [time.Now()] is read from the wall clock: [clock n] is the value of
    the [n]-th reading made during one call. *)
Definition clock := nat -> t.

End Time.

(* ===================================================================== *)
(** * controller-runtime/pkg/util                                          *)
(* ===================================================================== *)

Module Util.

(** Modelled from the spec: [util.UpsertListByKey] lives in the
    controller-runtime helper package, which is not part of the sources
    at hand.  The overlay merger is described as: "upserted by name
    (overlay entries with a matching name replace, others are appended,
    existing order preserved for untouched entries)".  One overlay entry
    replaces, in place, the first entry that has its key, or goes to the
    end when there is none; the overlay entries are taken in order. *)
Fixpoint UpsertByKey {E} (keyFn : E -> string) (old : list E) (e : E) : list E :=
  match old with
  | [] => [e]
  | x :: rest =>
      if String.eqb (keyFn x) (keyFn e) then e :: rest
      else x :: UpsertByKey keyFn rest e
  end.

Definition UpsertListByKey {E} (old new : list E) (keyFn : E -> string) : list E :=
  fold_left (UpsertByKey keyFn) new old.

(** What an existing entry becomes under an upsert: the new entry of the
    same key if there is one, itself otherwise. *)
Definition replaced {E} (keyFn : E -> string) (new : list E) (x : E) : E :=
  match List.find (fun v => String.eqb (keyFn v) (keyFn x)) new with
  | Some v => v
  | None => x
  end.

(** The new entries whose key is not among the existing ones. *)
Definition fresh {E} (keyFn : E -> string) (old : list E) (v : E) : bool :=
  negb (existsb (fun x => String.eqb (keyFn x) (keyFn v)) old).

(** The last of the new entries that has the key of [x]; [x] itself when
    no new entry has it. *)
Definition latest {E} (keyFn : E -> string) (new : list E) (x : E) : E :=
  replaced keyFn (rev new) x.

(** The entries of [new] whose key is not among [seen], a repeated key
    counted once: the first entry of each such key, in their order. *)
Fixpoint distinct {E} (keyFn : E -> string) (seen : list string) (new : list E)
  : list E :=
  match new with
  | [] => []
  | v :: rest =>
      if existsb (String.eqb (keyFn v)) seen then distinct keyFn seen rest
      else v :: distinct keyFn (keyFn v :: seen) rest
  end.

(** [util.FindFirst]: the first element the predicate accepts, or nil. *)
Definition FindFirst {E} (l : list E) (p : E -> bool) : option E := List.find p l.

End Util.

(* ===================================================================== *)
(** * api/core/v1alpha1: common_helpers.go                                 *)
(* ===================================================================== *)

Module V1alpha1.

Definition BucketUniqLabel : string := "matrixorigin.io/bucket-unique-id".

(** The reserved name of the generated main container; the constant is
    declared next to the API types. *)
Definition ContainerMain : string := "main".

Module MainContainerOverlay.
Record t := mk {
  Command : option (list string);
  Args : option (list string);
  EnvFrom : option (list payload);
  Env : option (list EnvVar.t);
  ImagePullPolicy : option string;
  VolumeMounts : option (list VolumeMount.t);
  LivenessProbe : option payload;
  ReadinessProbe : option payload;
  Lifecycle : option payload
}.
End MainContainerOverlay.

Module Overlay.
(** [MainContainerOverlay] is embedded by value: [o.ImagePullPolicy]
    and [o.VolumeMounts] are its promoted fields. *)
Record t := mk {
  MainContainerOverlay : MainContainerOverlay.t;
  Volumes : option (list Volume.t);
  VolumeClaims : list payload;
  InitContainers : option (list Container.t);
  SidecarContainers : option (list Container.t);
  ServiceAccountName : string;
  SecurityContext : option payload;
  ImagePullSecrets : option (list payload);
  Affinity : option payload;
  Tolerations : option (list payload);
  PriorityClassName : string;
  TerminationGracePeriodSeconds : option Z;
  HostAliases : option (list payload);
  TopologySpreadConstraints : option (list payload);
  RuntimeClassName : option string;
  DNSConfig : option payload;
  PodLabels : option (gmap string string);
  PodAnnotations : option (gmap string string)
}.
End Overlay.

(** [if o.F != nil { x.F = o.F }] on a pointer field. *)
Definition set_ptr {A} (o : option A) (old : option A) : option A :=
  match o with Some a => Some a | None => old end.

(** [if o.F != nil { x.F = o.F }] on a slice field. *)
Definition set_slice {A} (o : option (list A)) (old : list A) : list A :=
  match o with Some l => l | None => old end.

(** [if o.F != "" { x.F = o.F }] *)
Definition set_string (o : string) (old : string) : string :=
  if String.eqb o "" then old else o.

(** [for k, v := range src { dst[k] = v }]: writing into a nil map
    panics, ranging over an empty one writes nothing. *)
Definition copy_into (src : gmap string string) (dst : option (gmap string string))
  : Go.result (option (gmap string string)) :=
  match dst with
  | Some m => Go.Ok (Some (src ∪ m))
  | None => if bool_decide (src = ∅) then Go.Ok None else Go.Panic
  end.

Definition OverlayPodMeta (o : option Overlay.t) (meta : ObjectMeta.t)
  : Go.result ObjectMeta.t :=
  match o with
  | None => Go.Ok meta
  | Some o =>
      labels ← match Overlay.PodLabels o with
                | Some ls => copy_into ls (ObjectMeta.Labels meta)
                | None => Go.Ok (ObjectMeta.Labels meta)
                end;
      annotations ← match Overlay.PodAnnotations o with
                     | Some an => copy_into an (ObjectMeta.Annotations meta)
                     | None => Go.Ok (ObjectMeta.Annotations meta)
                     end;
      Go.Ok (ObjectMeta.mk (ObjectMeta.Name meta) (ObjectMeta.Namespace meta)
                           labels annotations)
  end.

Definition findMainContainer (containers : list Container.t) : option Container.t :=
  List.find (fun c => String.eqb (Container.Name c) ContainerMain) containers.

Definition OverlayPodSpec (o : option Overlay.t) (pod : PodSpec.t) : PodSpec.t :=
  match o with
  | None => pod
  | Some o =>
      {| PodSpec.Volumes :=
           match Overlay.Volumes o with
           | Some vs => Util.UpsertListByKey (PodSpec.Volumes pod) vs Volume.Name
           | None => PodSpec.Volumes pod
           end;
         PodSpec.Affinity := set_ptr (Overlay.Affinity o) (PodSpec.Affinity pod);
         PodSpec.ServiceAccountName :=
           set_string (Overlay.ServiceAccountName o) (PodSpec.ServiceAccountName pod);
         PodSpec.SecurityContext :=
           set_ptr (Overlay.SecurityContext o) (PodSpec.SecurityContext pod);
         PodSpec.ImagePullSecrets :=
           set_slice (Overlay.ImagePullSecrets o) (PodSpec.ImagePullSecrets pod);
         PodSpec.Tolerations := set_slice (Overlay.Tolerations o) (PodSpec.Tolerations pod);
         PodSpec.PriorityClassName :=
           set_string (Overlay.PriorityClassName o) (PodSpec.PriorityClassName pod);
         PodSpec.TerminationGracePeriodSeconds :=
           set_ptr (Overlay.TerminationGracePeriodSeconds o)
                   (PodSpec.TerminationGracePeriodSeconds pod);
         PodSpec.HostAliases := set_slice (Overlay.HostAliases o) (PodSpec.HostAliases pod);
         PodSpec.TopologySpreadConstraints :=
           set_slice (Overlay.TopologySpreadConstraints o)
                     (PodSpec.TopologySpreadConstraints pod);
         PodSpec.RuntimeClassName :=
           set_ptr (Overlay.RuntimeClassName o) (PodSpec.RuntimeClassName pod);
         PodSpec.DNSConfig := set_ptr (Overlay.DNSConfig o) (PodSpec.DNSConfig pod);
         PodSpec.InitContainers :=
           set_slice (Overlay.InitContainers o) (PodSpec.InitContainers pod);
         PodSpec.Containers :=
           match Overlay.SidecarContainers o with
           | Some sidecars =>
               match findMainContainer (PodSpec.Containers pod) with
               | Some main => main :: sidecars
               | None => sidecars
               end
           | None => PodSpec.Containers pod
           end;
         PodSpec.NodeSelector := PodSpec.NodeSelector pod;
         PodSpec.ReadinessGates := PodSpec.ReadinessGates pod |}
  end.

Definition OverlayMainContainer (o : option Overlay.t) (c : Container.t) : Container.t :=
  match o with
  | None => c
  | Some o =>
      let mc := Overlay.MainContainerOverlay o in
      {| Container.Name := Container.Name c;
         Container.Image := Container.Image c;
         Container.Resources := Container.Resources c;
         Container.ImagePullPolicy :=
           match MainContainerOverlay.ImagePullPolicy mc with
           | Some p => p
           | None => Container.ImagePullPolicy c
           end;
         Container.Command := set_slice (MainContainerOverlay.Command mc) (Container.Command c);
         Container.Args := set_slice (MainContainerOverlay.Args mc) (Container.Args c);
         Container.EnvFrom := set_slice (MainContainerOverlay.EnvFrom mc) (Container.EnvFrom c);
         Container.Env :=
           match MainContainerOverlay.Env mc with
           | Some env => Util.UpsertListByKey (Container.Env c) env EnvVar.Name
           | None => Container.Env c
           end;
         Container.ReadinessProbe :=
           set_ptr (MainContainerOverlay.ReadinessProbe mc) (Container.ReadinessProbe c);
         Container.LivenessProbe :=
           set_ptr (MainContainerOverlay.LivenessProbe mc) (Container.LivenessProbe c);
         Container.Lifecycle :=
           set_ptr (MainContainerOverlay.Lifecycle mc) (Container.Lifecycle c);
         Container.VolumeMounts :=
           match MainContainerOverlay.VolumeMounts mc with
           | Some mounts =>
               Util.UpsertListByKey (Container.VolumeMounts c) mounts VolumeMount.Name
           | None => Container.VolumeMounts c
           end |}
  end.

(** ** Failover tracking *)

(** [Store], declared with the API types; the query below reads its
    timestamp only. *)
Module Store.
Record t := mk {
  PodName : string;
  Phase : string;
  LastTransitionTime : Time.t
}.
End Store.

Module FailoverStatus.
Record t := mk { FailedStores : list Store.t }.
End FailoverStatus.

(** The loop of [StoresFailedFor]: iteration [i] reads the clock once and
    appends the store when it has been failed for at least [d]. *)
Fixpoint StoresFailedFor_loop (now : Time.clock) (i : nat) (failed : list Store.t)
         (d : Time.Duration) (stores : list Store.t) : list Store.t :=
  match failed with
  | [] => stores
  | store :: rest =>
      let stores' :=
        if d <=? Time.Sub (now i) (Store.LastTransitionTime store)
        then stores ++ [store] else stores in
      StoresFailedFor_loop now (S i) rest d stores'
  end.

(** [StoresFailedFor] has a pointer receiver: the result comes with the
    receiver as the call leaves it. *)
Definition StoresFailedFor (now : Time.clock) (s : FailoverStatus.t) (d : Time.Duration)
  : list Store.t * FailoverStatus.t :=
  (StoresFailedFor_loop now 0 (FailoverStatus.FailedStores s) d [], s).

(** ** Bucket claims *)

Module S3Provider.
Record t := mk {
  Path : string;
  Type_ : option string;   (* the field [Type]; a keyword here *)
  Endpoint : string;
  SecretRef : option string
}.
End S3Provider.

Module BucketClaim.
Record t := mk { Meta : ObjectMeta.t; S3 : option S3Provider.t }.
End BucketClaim.

(** [client.Client], reduced to the one call made here: listing the
    bucket claims of the cluster that carry the given labels. *)
Module Client.
Record t := mk { List : gmap string string -> Go.result (list BucketClaim.t) }.

Definition has_labels (sel : gmap string string) (bc : BucketClaim.t) : bool :=
  bool_decide (sel ⊆ default ∅ (ObjectMeta.Labels (BucketClaim.Meta bc))).

(** A store that holds [objs] and never fails. *)
Definition of_objects (objs : list BucketClaim.t) : t :=
  mk (fun sel => Go.Ok (List.filter (has_labels sel) objs)).
End Client.

(** [client.MatchingLabels{BucketUniqLabel: uniqLabel}] *)
Definition identity_selector (uniqLabel : string) : gmap string string :=
  {[ BucketUniqLabel := uniqLabel ]}.

(** [UniqueBucketLabel], in two steps: the type as a string, empty for a
    nil type, and the string that is hashed. *)
Definition providerType (s3Provider : S3Provider.t) : string :=
  match S3Provider.Type_ s3Provider with
  | Some ty => ty
  | None => ""
  end.

Definition uniqId (s3Provider : S3Provider.t) : string :=
  Go.Sprintf_s_s_s (providerType s3Provider) (S3Provider.Endpoint s3Provider)
                   (S3Provider.Path s3Provider).

Definition UniqueBucketLabel (s3Provider : S3Provider.t) : string :=
  let uniqId := uniqId s3Provider in
  let uniqId := Sha1.hex (Sha1.Sum (Go.bytes_of_string uniqId)) in
  uniqId.

(** [ClaimedBucket]: [Ok None] is the pair [(nil, nil)].  The caller
    passes a non-nil provider. *)
Definition ClaimedBucket (c : Client.t) (provider : S3Provider.t)
  : Go.result (option BucketClaim.t) :=
  let uniqLabel := UniqueBucketLabel provider in
  match Client.List c (identity_selector uniqLabel) with
  | Go.Err err => Go.Err err
  | Go.Panic => Go.Panic
  | Go.Ok items =>
      match items with
      | [] => Go.Ok None
      | [bc] => Go.Ok (Some bc)
      | _ => Go.Err "list more than one buckets"
      end
  end.

End V1alpha1.

(* ===================================================================== *)
(** * The configuration document                                           *)
(* ===================================================================== *)

Module TomlConfig.

(** Modelled from the spec: [TomlConfig] ([NewTomlConfig], [Set],
    [Merge]) is declared with the API types, outside the sources at
    hand.  It is "a path-addressed, nested key/value document":
    "[Set(path, value)] replaces the leaf at path, creating intermediate
    nodes as needed. [Merge(other)] recursively unions two trees; on leaf
    conflict the receiver's value is kept and the incoming value
    discarded".  Tables keep their keys in insertion order. *)
#[warnings="-register-all"]
Inductive value : Type :=
| VString (s : string)
| VInt (z : Z)
| VBool (b : bool)
| VStrings (l : list string)
| VTable (entries : list (string * value)).

Definition t := list (string * value).

Fixpoint lookup1 (k : string) (m : t) : option value :=
  match m with
  | [] => None
  | (k', v) :: m' => if String.eqb k' k then Some v else lookup1 k m'
  end.

(** [m[k] = v] *)
Fixpoint assign (k : string) (v : value) (m : t) : t :=
  match m with
  | [] => [(k, v)]
  | (k', v') :: m' =>
      if String.eqb k' k then (k, v) :: m' else (k', v') :: assign k v m'
  end.

Definition NewTomlConfig (m : t) : t := m.

Definition subtable (k : string) (m : t) : t :=
  match lookup1 k m with
  | Some (VTable s) => s
  | _ => []
  end.

(** [Set]; the name is a keyword here. *)
Fixpoint Set_ (path : list string) (v : value) (c : t) : t :=
  match path with
  | [] => c
  | k :: rest =>
      match rest with
      | [] => assign k v c
      | _ => assign k (VTable (Set_ rest v (subtable k c))) c
      end
  end.

Fixpoint merge_value (recv inc : value) {struct inc} : value :=
  match recv, inc with
  | VTable r, VTable o =>
      VTable ((fix go (o : list (string * value)) (r : t) {struct o} : t :=
                 match o with
                 | [] => r
                 | (k, v) :: o' =>
                     go o' (match lookup1 k r with
                            | Some rv => assign k (merge_value rv v) r
                            | None => r ++ [(k, v)]
                            end)
                 end) o r)
  | _, _ => recv
  end.

Definition merge_entry (r : t) (kv : string * value) : t :=
  match lookup1 (fst kv) r with
  | Some rv => assign (fst kv) (merge_value rv (snd kv)) r
  | None => r ++ [kv]
  end.

Definition Merge (c : t) (mp : t) : t := fold_left merge_entry mp c.

(** Reading the document at a path. *)
Fixpoint get (path : list string) (v : value) : option value :=
  match path with
  | [] => Some v
  | k :: rest =>
      match v with
      | VTable m =>
          match lookup1 k m with
          | Some x => get rest x
          | None => None
          end
      | _ => None
      end
  end.

Definition Get (path : list string) (c : t) : option value := get path (VTable c).

Definition is_leaf (v : value) : bool :=
  match v with VTable _ => false | _ => true end.

(** Two documents hold tables under [k1], and the two tables hold the same
    under [k2]. *)
Definition agree_under (k1 k2 : string) (r1 r2 : t) : Prop :=
  exists T1 T2,
    lookup1 k1 r1 = Some (VTable T1) /\ lookup1 k1 r2 = Some (VTable T2) /\
    lookup1 k2 T1 = lookup1 k2 T2.

End TomlConfig.

(* ===================================================================== *)
(** * api/core/v1alpha1: the objects of the DN-set reconciler              *)
(* ===================================================================== *)

Module Api.
Import V1alpha1.

(** [v1alpha1.Volume]: sizes are [resource.Quantity] values, kept as
    their [Value()], a number of bytes. *)
Module Volume.
Record t := mk { Size : Z; StorageClassName : option string }.
End Volume.

Module SharedStorageCache.
Record t := mk { MemoryCacheSize : option Z; DiskCacheSize : option Z }.
End SharedStorageCache.

Module SharedStorageProvider.
Record t := mk { S3 : option S3Provider.t; FileSystem : option string }.
End SharedStorageProvider.

Module LogSetSpec.
Record t := mk { Replicas : Z; SharedStorage : SharedStorageProvider.t }.
End LogSetSpec.

Module LogSetStatus.
(** [Discovery] is the published discovery address, nil until the log
    service has one. *)
Record t := mk { Discovery : option string }.
End LogSetStatus.

Module LogSet.
Record t := mk { Meta : ObjectMeta.t; Spec : LogSetSpec.t; Status : LogSetStatus.t }.
End LogSet.

Module DNSetSpec.
Record t := mk {
  Replicas : Z;
  Image : string;
  Resources : payload;
  NodeSelector : option (gmap string string);
  TopologyEvenSpread : list string;
  Config : option TomlConfig.t;
  DNSBasedIdentity : bool;
  Overlay : option Overlay.t;
  CacheVolume : option Volume.t;
  SharedStorageCache : SharedStorageCache.t
}.
End DNSetSpec.

Module DNSetDeps.
Record t := mk { LogSet : option LogSet.t }.
End DNSetDeps.

Module DNSet.
Record t := mk { Meta : ObjectMeta.t; Spec : DNSetSpec.t; Deps : DNSetDeps.t }.
End DNSet.

(** [kruise.StatefulSet], as far as the reconciler writes it. *)
Module StatefulSet.
Record t := mk {
  Meta : ObjectMeta.t;
  Replicas : option Z;
  TemplateMeta : ObjectMeta.t;
  TemplateSpec : PodSpec.t;
  VolumeClaimTemplates : list payload
}.
End StatefulSet.

(** [recon.Context[*DNSet]]: the object under reconciliation and the
    snapshot of it with resolved dependencies. *)
Module Context.
Record t := mk { Obj : DNSet.t; Dep : option DNSet.t }.
End Context.

End Api.

(* ===================================================================== *)
(** * The admission webhook: cache-size defaults                           *)
(* ===================================================================== *)

Module Webhook.
Import Api.

Module CNSetSpec.
Record t := mk {
  Replicas : Z;
  Image : string;
  MemoryRequest : option Z;
  CacheVolume : option Volume.t;
  SharedStorageCache : SharedStorageCache.t
}.
End CNSetSpec.

Definition Gi : Z := 2 ^ 30.

(** Modelled from the spec: the defaulting code of the CN set webhook is
    not part of the sources at hand, only its test [should set default
    cache size] is.  The rule is the documented one: "disk defaults to
    cache-volume size, memory defaults to 50% of memory request when
    unset"; the manifest template words it the same way ("default to the
    size of cacheVolume if not set", "default to 50% of the memory request
    if not set"). *)
Definition defaultDiskCacheSize (volumeSize : Z) : Z := volumeSize.

Definition defaultMemoryCacheSize (memoryRequest : Z) : Z := memoryRequest / 2.

Definition setDefaultCacheSize (spec : CNSetSpec.t) : CNSetSpec.t :=
  let cache := CNSetSpec.SharedStorageCache spec in
  let memory :=
    match SharedStorageCache.MemoryCacheSize cache, CNSetSpec.MemoryRequest spec with
    | None, Some request => Some (defaultMemoryCacheSize request)
    | m, _ => m
    end in
  let disk :=
    match SharedStorageCache.DiskCacheSize cache, CNSetSpec.CacheVolume spec with
    | None, Some volume => Some (defaultDiskCacheSize (Volume.Size volume))
    | d, _ => d
    end in
  CNSetSpec.mk (CNSetSpec.Replicas spec) (CNSetSpec.Image spec)
               (CNSetSpec.MemoryRequest spec) (CNSetSpec.CacheVolume spec)
               (SharedStorageCache.mk memory disk).

(** The CN set of the test [should set default cache size] (two
    replicas, image [test], a cache volume of [20Gi], no cache sizes) and
    the disk cache size the test expects after defaulting, [18Gi]. *)
Definition test_cn : CNSetSpec.t :=
  CNSetSpec.mk 2 "test" None (Some (Volume.mk (20 * Gi) None))
               (SharedStorageCache.mk None None).

Definition test_expected : Z := 18 * Gi.

End Webhook.

(* ===================================================================== *)
(** * pkg/controllers/dnset                                                *)
(* ===================================================================== *)

Module Dnset.
Import V1alpha1 Api TomlConfig.

Definition serviceType : string := "DN".

(** The path of the statement that is commented out in
    [buildDNSetConfigMap]:
    [conf.Set({"hakeeper-client", "discovery-address"}, ls.Status.Discovery.String())]. *)
Definition discovery_address_path : list string :=
  ["hakeeper-client"; "discovery-address"].

(** The paths of the configuration document that lie outside
    [hakeeper-client.service-addresses]: not that entry, nothing below it,
    and no table that holds it. *)
Definition outside_service_addresses (path : list string) : bool :=
  match path with
  | [] => false
  | k :: rest =>
      if String.eqb k "hakeeper-client"
      then match rest with
           | [] => false
           | k' :: _ => negb (String.eqb k' "service-addresses")
           end
      else true
  end.

(** The data handed to the start-script template. *)
Module model.
Record t := mk { DNServicePort : Z; ConfigFilePath : string; LockServicePort : Z }.
End model.

(** What the package takes from its neighbours ([common], [logset],
    [util], the TOML encoder, the template engine) and from sibling files:
    the constants and functions used by [resource.go] whose code is not at
    hand.  They are parameters of everything below. *)
Module Env.
Record t := mk {
  ConfigVolume : string;
  ConfigPath : string;
  ConfigFile : string;
  Entrypoint : string;
  DataVolume : string;
  DataPath : string;
  DataDir : string;
  PodNameEnvKey : string;
  NamespaceEnvKey : string;
  HeadlessSvcEnvKey : string;
  InPlaceUpdateReady : string;
  LockServicePort : Z;
  dnServicePort : Z;
  getListenAddress : string;
  headlessSvcName : DNSet.t -> string;
  configMapName : DNSet.t -> string;
  ObjMetaTemplate : DNSet.t -> string -> ObjectMeta.t;
  HaKeeperAdds : LogSet.t -> list string;
  FileServiceConfig :
    string -> SharedStorageProvider.t -> option Volume.t -> SharedStorageCache.t
    -> TomlConfig.t;
  ToString : TomlConfig.t -> Go.result string;
  Execute : model.t -> Go.result string;
  FieldRefEnv : string -> string -> EnvVar.t;
  SetStorageProviderConfig : SharedStorageProvider.t -> PodSpec.t -> PodSpec.t;
  SyncTopology : list string -> PodSpec.t -> PodSpec.t;
  SyncConfigMap : Context.t -> PodSpec.t -> ConfigMap.t -> PodSpec.t * Go.result unit
}.
End Env.

(** [fmt.Sprintf("%s/%s", a, b)] *)
Definition join_path (a b : string) : string := a +:+ "/" +:+ b.

Section Reconciler.
Context (env : Env.t).

Definition syncReplicas (dn : DNSet.t) (cs : StatefulSet.t) : StatefulSet.t :=
  StatefulSet.mk (StatefulSet.Meta cs) (Some (DNSetSpec.Replicas (DNSet.Spec dn)))
                 (StatefulSet.TemplateMeta cs) (StatefulSet.TemplateSpec cs)
                 (StatefulSet.VolumeClaimTemplates cs).

Definition syncPodMeta (dn : DNSet.t) (cs : StatefulSet.t) : Go.result StatefulSet.t :=
  meta ← OverlayPodMeta (DNSetSpec.Overlay (DNSet.Spec dn)) (StatefulSet.TemplateMeta cs);
  Go.Ok (StatefulSet.mk (StatefulSet.Meta cs) (StatefulSet.Replicas cs) meta
                        (StatefulSet.TemplateSpec cs) (StatefulSet.VolumeClaimTemplates cs)).

Definition with_containers (spec : PodSpec.t) (containers : list Container.t)
           (gates : list string) (selector : option (gmap string string)) : PodSpec.t :=
  {| PodSpec.Volumes := PodSpec.Volumes spec;
     PodSpec.InitContainers := PodSpec.InitContainers spec;
     PodSpec.Containers := containers;
     PodSpec.TerminationGracePeriodSeconds := PodSpec.TerminationGracePeriodSeconds spec;
     PodSpec.NodeSelector := selector;
     PodSpec.ServiceAccountName := PodSpec.ServiceAccountName spec;
     PodSpec.SecurityContext := PodSpec.SecurityContext spec;
     PodSpec.ImagePullSecrets := PodSpec.ImagePullSecrets spec;
     PodSpec.Affinity := PodSpec.Affinity spec;
     PodSpec.Tolerations := PodSpec.Tolerations spec;
     PodSpec.HostAliases := PodSpec.HostAliases spec;
     PodSpec.PriorityClassName := PodSpec.PriorityClassName spec;
     PodSpec.DNSConfig := PodSpec.DNSConfig spec;
     PodSpec.ReadinessGates := gates;
     PodSpec.RuntimeClassName := PodSpec.RuntimeClassName spec;
     PodSpec.TopologySpreadConstraints := PodSpec.TopologySpreadConstraints spec |}.

Definition syncPodSpec (dn : DNSet.t) (sts : StatefulSet.t) (sp : SharedStorageProvider.t)
  : StatefulSet.t :=
  let spec := DNSet.Spec dn in
  let volumeMountsList :=
    [VolumeMount.mk (Env.ConfigVolume env) true (Env.ConfigPath env)] in
  let dataVolume := VolumeMount.mk (Env.DataVolume env) false (Env.DataPath env) in
  let volumeMountsList :=
    match DNSetSpec.CacheVolume spec with
    | Some _ => volumeMountsList ++ [dataVolume]
    | None => volumeMountsList
    end in
  let mainRef :=
    match Util.FindFirst (PodSpec.Containers (StatefulSet.TemplateSpec sts))
                         (fun c => String.eqb (Container.Name c) ContainerMain) with
    | Some c => c
    | None => Container.mk ContainerMain "" [] [] [] [] "" [] None None None ""
    end in
  let env0 :=
    [Env.FieldRefEnv env (Env.PodNameEnvKey env) "metadata.name";
     Env.FieldRefEnv env (Env.NamespaceEnvKey env) "metadata.namespace";
     EnvVar.mk (Env.HeadlessSvcEnvKey env) (Env.headlessSvcName env dn) None] in
  let env1 :=
    if DNSetSpec.DNSBasedIdentity spec
    then env0 ++ [EnvVar.mk "HOSTNAME_UUID" "y" None] else env0 in
  let mainRef :=
    {| Container.Name := Container.Name mainRef;
       Container.Image := DNSetSpec.Image spec;
       Container.Command := ["/bin/sh"; join_path (Env.ConfigPath env) (Env.Entrypoint env)];
       Container.Args := Container.Args mainRef;
       Container.EnvFrom := Container.EnvFrom mainRef;
       Container.Env := env1;
       Container.Resources := DNSetSpec.Resources spec;
       Container.VolumeMounts := volumeMountsList;
       Container.LivenessProbe := Container.LivenessProbe mainRef;
       Container.ReadinessProbe := Container.ReadinessProbe mainRef;
       Container.Lifecycle := Container.Lifecycle mainRef;
       Container.ImagePullPolicy := Container.ImagePullPolicy mainRef |} in
  let mainRef := OverlayMainContainer (DNSetSpec.Overlay spec) mainRef in
  let specRef :=
    with_containers (StatefulSet.TemplateSpec sts) [mainRef]
                    [Env.InPlaceUpdateReady env] (DNSetSpec.NodeSelector spec) in
  let specRef := Env.SetStorageProviderConfig env sp specRef in
  let specRef := Env.SyncTopology env (DNSetSpec.TopologyEvenSpread spec) specRef in
  StatefulSet.mk (StatefulSet.Meta sts) (StatefulSet.Replicas sts)
                 (StatefulSet.TemplateMeta sts)
                 (OverlayPodSpec (DNSetSpec.Overlay spec) specRef)
                 (StatefulSet.VolumeClaimTemplates sts).

(** The configuration tree that [buildDNSetConfigMap] renders.  The
    statement that would store the discovery address,
    [conf.Set({"hakeeper-client", "discovery-address"}, ...)], is commented
    out in the source and has no counterpart here. *)
Definition dnConfig (dn : DNSet.t) (ls : LogSet.t) : TomlConfig.t :=
  let spec := DNSet.Spec dn in
  let conf :=
    match DNSetSpec.Config spec with
    | Some c => c
    | None => NewTomlConfig []
    end in
  let conf := Set_ ["hakeeper-client"; "service-addresses"]
                   (VStrings (Env.HaKeeperAdds env ls)) conf in
  let conf :=
    Merge conf (Env.FileServiceConfig env
                  (join_path (Env.DataPath env) (Env.DataDir env))
                  (LogSetSpec.SharedStorage (LogSet.Spec ls))
                  (DNSetSpec.CacheVolume spec) (DNSetSpec.SharedStorageCache spec)) in
  let conf := Set_ ["service-type"] (VString serviceType) conf in
  let conf := Set_ ["dn"; "listen-address"] (VString (Env.getListenAddress env)) conf in
  Set_ ["dn"; "lockservice"; "listen-address"]
       (VString ("0.0.0.0:" +:+ pretty (Env.LockServicePort env))) conf.

Definition discovery_not_ready : Go.error := "HAKeeper discovery address not ready".

(** [buildDNSetConfigMap]: [ls] is a pointer, read without a nil test. *)
Definition buildDNSetConfigMap (dn : DNSet.t) (ls : option LogSet.t)
  : Go.result ConfigMap.t :=
  ls ← Go.deref ls;
  match LogSetStatus.Discovery (LogSet.Status ls) with
  | None => Go.Err discovery_not_ready
  | Some _ =>
      s ← Env.ToString env (dnConfig dn ls);
      script ← Env.Execute env
                 (model.mk (Env.dnServicePort env)
                           (join_path (Env.ConfigPath env) (Env.ConfigFile env))
                           (Env.LockServicePort env));
      Go.Ok (ConfigMap.mk
               (Env.ObjMetaTemplate env dn (Env.configMapName env dn))
               (<[Env.Entrypoint env := script]> {[ Env.ConfigFile env := s ]}))
  end.

(** [syncPods]: the stateful set as the call leaves it, and what the call
    returns.  The first statement reads [ctx.Dep.Deps.LogSet]; the test
    [ctx.Dep != nil] comes after it. *)
Definition syncPods (ctx : Context.t) (sts : StatefulSet.t)
  : StatefulSet.t * Go.result unit :=
  match Go.deref (Context.Dep ctx) with
  | Go.Panic => (sts, Go.Panic)
  | Go.Err e => (sts, Go.Err e)
  | Go.Ok dep0 =>
      match buildDNSetConfigMap (Context.Obj ctx) (DNSetDeps.LogSet (DNSet.Deps dep0)) with
      | Go.Panic => (sts, Go.Panic)
      | Go.Err err => (sts, Go.Err err)
      | Go.Ok cm =>
          match syncPodMeta (Context.Obj ctx) sts with
          | Go.Panic => (sts, Go.Panic)
          | Go.Err e => (sts, Go.Err e)
          | Go.Ok sts1 =>
              let synced :=
                match Context.Dep ctx with
                | Some dep =>
                    ls ← Go.deref (DNSetDeps.LogSet (DNSet.Deps dep));
                    Go.Ok (syncPodSpec (Context.Obj ctx) sts1
                                       (LogSetSpec.SharedStorage (LogSet.Spec ls)))
                | None => Go.Ok sts1
                end in
              match synced with
              | Go.Panic => (sts1, Go.Panic)
              | Go.Err e => (sts1, Go.Err e)
              | Go.Ok sts2 =>
                  let '(spec, r) :=
                    Env.SyncConfigMap env ctx (StatefulSet.TemplateSpec sts2) cm in
                  (StatefulSet.mk (StatefulSet.Meta sts2) (StatefulSet.Replicas sts2)
                                  (StatefulSet.TemplateMeta sts2) spec
                                  (StatefulSet.VolumeClaimTemplates sts2), r)
              end
          end
      end
  end.

End Reconciler.

End Dnset.

(* ===================================================================== *)
(** * Concrete objects for evaluation                                      *)
(* ===================================================================== *)

Module Sample.
Import V1alpha1 Api TomlConfig Dnset.

Definition newline : string := String (ascii_of_nat 10) EmptyString.

Definition quote (s : string) : string := "'" +:+ s +:+ "'".

(** A flat renderer of the configuration tree, one dotted key per line;
    it stands in for the TOML encoder. *)
Fixpoint render (path : string) (v : value) : string :=
  match v with
  | VString s => path +:+ " = " +:+ quote s +:+ newline
  | VInt z => path +:+ " = " +:+ pretty z +:+ newline
  | VBool b => path +:+ " = " +:+ (if b then "true" else "false") +:+ newline
  | VStrings l => path +:+ " = [" +:+ String.concat ", " (List.map quote l) +:+ "]" +:+ newline
  | VTable m =>
      (fix go (m : list (string * value)) : string :=
         match m with
         | [] => ""
         | (k, x) :: m' =>
             render (if String.eqb path "" then k else path +:+ "." +:+ k) x +:+ go m'
         end) m
  end.

(** A stand-in for the neighbours of the package: the values are samples,
    not the operator's own constants. *)
Definition env : Env.t :=
  {| Env.ConfigVolume := "config";
     Env.ConfigPath := "/etc/matrixone/config";
     Env.ConfigFile := "config.toml";
     Env.Entrypoint := "start.sh";
     Env.DataVolume := "data";
     Env.DataPath := "/var/lib/matrixone/data";
     Env.DataDir := "data";
     Env.PodNameEnvKey := "POD_NAME";
     Env.NamespaceEnvKey := "NAMESPACE";
     Env.HeadlessSvcEnvKey := "HEADLESS_SERVICE_NAME";
     Env.InPlaceUpdateReady := "InPlaceUpdateReady";
     Env.LockServicePort := 6003;
     Env.dnServicePort := 41010;
     Env.getListenAddress := "0.0.0.0:41010";
     Env.headlessSvcName := fun dn => ObjectMeta.Name (DNSet.Meta dn) +:+ "-dn-headless";
     Env.configMapName := fun dn => ObjectMeta.Name (DNSet.Meta dn) +:+ "-dn-config";
     Env.ObjMetaTemplate := fun dn name =>
       ObjectMeta.mk name (ObjectMeta.Namespace (DNSet.Meta dn)) (Some ∅) (Some ∅);
     Env.HaKeeperAdds := fun ls =>
       List.map (fun i => ObjectMeta.Name (LogSet.Meta ls) +:+ "-log-" +:+ pretty i
                          +:+ "." +:+ ObjectMeta.Namespace (LogSet.Meta ls) +:+ ".svc:32001")
                (seq 0 (Z.to_nat (LogSetSpec.Replicas (LogSet.Spec ls))));
     Env.FileServiceConfig := fun dir sp cv cache =>
       [("data-dir", VString dir);
        ("hakeeper-client", VTable [("service-addresses", VStrings ["shadowed:0"])])];
     Env.ToString := fun c => Go.Ok (render "" (VTable c));
     Env.Execute := fun m =>
       Go.Ok ("exec /mo-service -cfg " +:+ model.ConfigFilePath m);
     Env.FieldRefEnv := fun name path => EnvVar.mk name "" (Some path);
     Env.SetStorageProviderConfig := fun sp spec => spec;
     Env.SyncTopology := fun keys spec => spec;
     Env.SyncConfigMap := fun ctx spec cm => (spec, Go.Ok tt) |}.

Definition discovery_address : string := "mo-log-discovery.default.svc:32001".

Definition shared : SharedStorageProvider.t := SharedStorageProvider.mk None (Some "/test").

Definition logset (discovery : option string) : LogSet.t :=
  LogSet.mk (ObjectMeta.mk "mo" "default" None None)
            (LogSetSpec.mk 3 shared) (LogSetStatus.mk discovery).

Definition dnset (ls : option LogSet.t) : DNSet.t :=
  DNSet.mk (ObjectMeta.mk "mo" "default" None None)
           (DNSetSpec.mk 1 "matrixone:test" "" None [] None false None None
                         (SharedStorageCache.mk None None))
           (DNSetDeps.mk ls).

Definition logset_ready : LogSet.t := logset (Some discovery_address).

Definition podspec : PodSpec.t :=
  PodSpec.mk [] [] [] None None "" None [] None [] [] "" None [] None [].

Definition sts : StatefulSet.t :=
  StatefulSet.mk (ObjectMeta.mk "mo-dn" "default" None None) None
                 (ObjectMeta.mk "" "" (Some ∅) (Some ∅)) podspec [].

(** A reconciliation whose log set has published its discovery address,
    one whose log set has not, and one without a dependency snapshot. *)
Definition ctx_ready : Context.t :=
  Context.mk (dnset None) (Some (dnset (Some (logset (Some discovery_address))))).

Definition ctx_pending : Context.t :=
  Context.mk (dnset None) (Some (dnset (Some (logset None)))).

Definition ctx_no_dep : Context.t := Context.mk (dnset None) None.

Definition provider : S3Provider.t :=
  S3Provider.mk "bucket/dir" (Some "minio") "http://minio:9000" None.

Definition claim (name : string) (p : S3Provider.t) : BucketClaim.t :=
  BucketClaim.mk
    (ObjectMeta.mk name "" (Some {[ BucketUniqLabel := UniqueBucketLabel p ]}) None)
    (Some p).

(** An overlay that is present and sets nothing. *)
Definition empty_main_overlay : MainContainerOverlay.t :=
  MainContainerOverlay.mk None None None None None None None None None.

Definition empty_overlay : Overlay.t :=
  Overlay.mk empty_main_overlay None [] None None "" None None None None "" None
             None None None None None None.

End Sample.

(* ===================================================================== *)
(** * api/core/v1alpha1: the remaining helpers                             *)
(* ===================================================================== *)

Module Helpers.
Import V1alpha1.

(** [AppendVolumeClaims]: the claims of the overlay go after the given
    ones; the claims are carried in their serialised form. *)
Definition AppendVolumeClaims (o : option Overlay.t) (claims : list payload) : list payload :=
  match o with
  | None => claims
  | Some o => claims ++ Overlay.VolumeClaims o
  end.

Module DefaultArgs.
Record t := mk { LogService : list string; DN : list string; CN : list string }.
End DefaultArgs.

(** The argument of [setDefaultServiceArgs] is an [interface{}]: a pointer
    to one of the three basic specs, of which the function reads and
    writes [ServiceArgs] only, or a value of any other type.  The pointer
    may be nil. *)
Inductive object : Type :=
| LogSetBasic (p : option (list string))
| DNSetBasic (p : option (list string))
| CNSetBasic (p : option (list string))
| Unknown (type_name : string).

(** [if len(obj.ServiceArgs) == 0 { obj.ServiceArgs = defaults }] through
    a pointer. *)
Definition default_args (defaults : list string) (p : option (list string))
  : Go.result (option (list string)) :=
  match p with
  | None => Go.Panic
  | Some args => Go.Ok (Some (if (length args =? 0)%nat then defaults else args))
  end.

(** [setDefaultServiceArgs]: [ServiceDefaultArgs] is the package-level
    cache; the result is the object as the call leaves it together with
    the lines written to the log. *)
Definition setDefaultServiceArgs (ServiceDefaultArgs : option DefaultArgs.t) (obj : object)
  : Go.result (object * list string) :=
  match ServiceDefaultArgs with
  | None => Go.Ok (obj, [])
  | Some defaults =>
      match obj with
      | LogSetBasic p =>
          p' ← default_args (DefaultArgs.LogService defaults) p; Go.Ok (LogSetBasic p', [])
      | DNSetBasic p =>
          p' ← default_args (DefaultArgs.DN defaults) p; Go.Ok (DNSetBasic p', [])
      | CNSetBasic p =>
          p' ← default_args (DefaultArgs.CN defaults) p; Go.Ok (CNSetBasic p', [])
      | Unknown type_name =>
          Go.Ok (obj, ["unknown type:" +:+ type_name])
      end
  end.

(** [fmt.Sprintf("%s/%s", logsetMeta.Namespace, logsetMeta.Name)] *)
Definition BucketBindToMark (logsetMeta : ObjectMeta.t) : string :=
  ObjectMeta.Namespace logsetMeta +:+ "/" +:+ ObjectMeta.Name logsetMeta.

(** [MatrixOneCluster] embeds its [ObjectMeta]; the key functions read
    [mo.Name] and [mo.Namespace] and leave the other fields of the key at
    their zero value. *)
Module MatrixOneCluster.
Record t := mk { Meta : ObjectMeta.t }.
End MatrixOneCluster.

Definition key (name namespace : string) : ObjectMeta.t :=
  ObjectMeta.mk name namespace None None.

Definition LogSetKey (mo : MatrixOneCluster.t) : ObjectMeta.t :=
  key (ObjectMeta.Name (MatrixOneCluster.Meta mo))
      (ObjectMeta.Namespace (MatrixOneCluster.Meta mo)).

Definition DNSetKey (mo : MatrixOneCluster.t) : ObjectMeta.t :=
  key (ObjectMeta.Name (MatrixOneCluster.Meta mo))
      (ObjectMeta.Namespace (MatrixOneCluster.Meta mo)).

Definition TPSetKey (mo : MatrixOneCluster.t) : ObjectMeta.t :=
  key (ObjectMeta.Name (MatrixOneCluster.Meta mo) +:+ "-tp")
      (ObjectMeta.Namespace (MatrixOneCluster.Meta mo)).

Definition APSetKey (mo : MatrixOneCluster.t) : ObjectMeta.t :=
  key (ObjectMeta.Name (MatrixOneCluster.Meta mo) +:+ "-ap")
      (ObjectMeta.Namespace (MatrixOneCluster.Meta mo)).

Definition WebUIKey (mo : MatrixOneCluster.t) : ObjectMeta.t :=
  key (ObjectMeta.Name (MatrixOneCluster.Meta mo))
      (ObjectMeta.Namespace (MatrixOneCluster.Meta mo)).

(** Whether a string holds the byte [c]. *)
Fixpoint contains_char (c : ascii) (s : string) : bool :=
  match s with
  | EmptyString => false
  | String c' s' => if Ascii.eqb c' c then true else contains_char c s'
  end.

Definition slash : ascii := "/"%char.

End Helpers.

(* ===================================================================== *)
(** * pkg/controllers/dnset: the remaining builders                        *)
(* ===================================================================== *)

Module DnsetResources.
Import V1alpha1 Api Dnset Helpers.

Section Builders.
Context (env : Env.t).

(** [common.PersistentVolumeClaimTemplate], from the [common] package:
    size, storage class and name to a claim. *)
Context (PersistentVolumeClaimTemplate : Z -> option string -> string -> payload).

Definition syncPersistentVolumeClaim (dn : DNSet.t) (sts : StatefulSet.t) : StatefulSet.t :=
  match DNSetSpec.CacheVolume (DNSet.Spec dn) with
  | Some volume =>
      let dataPVC :=
        PersistentVolumeClaimTemplate (Volume.Size volume) (Volume.StorageClassName volume)
                                      (Env.DataVolume env) in
      let tpls := [dataPVC] in
      let tpls := AppendVolumeClaims (DNSetSpec.Overlay (DNSet.Spec dn)) tpls in
      StatefulSet.mk (StatefulSet.Meta sts) (StatefulSet.Replicas sts)
                     (StatefulSet.TemplateMeta sts) (StatefulSet.TemplateSpec sts) tpls
  | None => sts
  end.

(** The main container that [syncPodSpec] builds, as it stands after
    [OverlayMainContainer] and before it is put into the pod spec. *)
Definition syncPodSpec_main (dn : DNSet.t) (sts : StatefulSet.t) : Container.t :=
  let spec := DNSet.Spec dn in
  let volumeMountsList :=
    [VolumeMount.mk (Env.ConfigVolume env) true (Env.ConfigPath env)] in
  let dataVolume := VolumeMount.mk (Env.DataVolume env) false (Env.DataPath env) in
  let volumeMountsList :=
    match DNSetSpec.CacheVolume spec with
    | Some _ => volumeMountsList ++ [dataVolume]
    | None => volumeMountsList
    end in
  let mainRef :=
    match Util.FindFirst (PodSpec.Containers (StatefulSet.TemplateSpec sts))
                         (fun c => String.eqb (Container.Name c) ContainerMain) with
    | Some c => c
    | None => Container.mk ContainerMain "" [] [] [] [] "" [] None None None ""
    end in
  let env0 :=
    [Env.FieldRefEnv env (Env.PodNameEnvKey env) "metadata.name";
     Env.FieldRefEnv env (Env.NamespaceEnvKey env) "metadata.namespace";
     EnvVar.mk (Env.HeadlessSvcEnvKey env) (Env.headlessSvcName env dn) None] in
  let env1 :=
    if DNSetSpec.DNSBasedIdentity spec
    then env0 ++ [EnvVar.mk "HOSTNAME_UUID" "y" None] else env0 in
  let mainRef :=
    {| Container.Name := Container.Name mainRef;
       Container.Image := DNSetSpec.Image spec;
       Container.Command := ["/bin/sh"; join_path (Env.ConfigPath env) (Env.Entrypoint env)];
       Container.Args := Container.Args mainRef;
       Container.EnvFrom := Container.EnvFrom mainRef;
       Container.Env := env1;
       Container.Resources := DNSetSpec.Resources spec;
       Container.VolumeMounts := volumeMountsList;
       Container.LivenessProbe := Container.LivenessProbe mainRef;
       Container.ReadinessProbe := Container.ReadinessProbe mainRef;
       Container.Lifecycle := Container.Lifecycle mainRef;
       Container.ImagePullPolicy := Container.ImagePullPolicy mainRef |} in
  OverlayMainContainer (DNSetSpec.Overlay spec) mainRef.

(** The pod spec that [syncPodSpec] hands to [OverlayPodSpec]: the
    generated one, after the storage and topology settings. *)
Definition syncPodSpec_generated (dn : DNSet.t) (sts : StatefulSet.t)
           (sp : SharedStorageProvider.t) : PodSpec.t :=
  let spec := DNSet.Spec dn in
  let specRef :=
    with_containers (StatefulSet.TemplateSpec sts) [syncPodSpec_main dn sts]
                    [Env.InPlaceUpdateReady env] (DNSetSpec.NodeSelector spec) in
  let specRef := Env.SetStorageProviderConfig env sp specRef in
  Env.SyncTopology env (DNSetSpec.TopologyEvenSpread spec) specRef.

End Builders.

End DnsetResources.

(* ===================================================================== *)
(** * More concrete objects for evaluation                                 *)
(* ===================================================================== *)

Module Fixtures.
Import V1alpha1 Api TomlConfig Dnset.

(** An environment with another encoder. *)
Definition with_ToString (f : TomlConfig.t -> Go.result string) (e : Env.t) : Env.t :=
  {| Env.ConfigVolume := Env.ConfigVolume e;
     Env.ConfigPath := Env.ConfigPath e;
     Env.ConfigFile := Env.ConfigFile e;
     Env.Entrypoint := Env.Entrypoint e;
     Env.DataVolume := Env.DataVolume e;
     Env.DataPath := Env.DataPath e;
     Env.DataDir := Env.DataDir e;
     Env.PodNameEnvKey := Env.PodNameEnvKey e;
     Env.NamespaceEnvKey := Env.NamespaceEnvKey e;
     Env.HeadlessSvcEnvKey := Env.HeadlessSvcEnvKey e;
     Env.InPlaceUpdateReady := Env.InPlaceUpdateReady e;
     Env.LockServicePort := Env.LockServicePort e;
     Env.dnServicePort := Env.dnServicePort e;
     Env.getListenAddress := Env.getListenAddress e;
     Env.headlessSvcName := Env.headlessSvcName e;
     Env.configMapName := Env.configMapName e;
     Env.ObjMetaTemplate := Env.ObjMetaTemplate e;
     Env.HaKeeperAdds := Env.HaKeeperAdds e;
     Env.FileServiceConfig := Env.FileServiceConfig e;
     Env.ToString := f;
     Env.Execute := Env.Execute e;
     Env.FieldRefEnv := Env.FieldRefEnv e;
     Env.SetStorageProviderConfig := Env.SetStorageProviderConfig e;
     Env.SyncTopology := Env.SyncTopology e;
     Env.SyncConfigMap := Env.SyncConfigMap e |}.

(** The sample environment with an encoder that rejects every tree. *)
Definition env_unrenderable : Env.t :=
  with_ToString (fun _ => Go.Err "toml: cannot encode") Sample.env.

(** A DN set with a user configuration. *)
Definition user_conf : TomlConfig.t :=
  [("log", VTable [("level", VString "debug")]);
   ("service-type", VString "CN")].

Definition dnset_configured : DNSet.t :=
  DNSet.mk (ObjectMeta.mk "mo" "default" None None)
           (DNSetSpec.mk 1 "matrixone:test" "" None [] (Some user_conf) false None None
                         (SharedStorageCache.mk None None))
           (DNSetDeps.mk None).

(** The config map of the sample DN set against the ready log set. *)
Definition sample_config_map : ConfigMap.t :=
  ConfigMap.mk
    (Env.ObjMetaTemplate Sample.env (Sample.dnset None)
                         (Env.configMapName Sample.env (Sample.dnset None)))
    (<[ Env.Entrypoint Sample.env :=
          "exec /mo-service -cfg /etc/matrixone/config/config.toml" ]>
       {[ Env.ConfigFile Sample.env :=
            Sample.render "" (VTable (dnConfig Sample.env (Sample.dnset None)
                                               Sample.logset_ready)) ]}).

End Fixtures.

(* ===================================================================== *)
(** * Properties                                                           *)
(* ===================================================================== *)

Import V1alpha1 Api TomlConfig Dnset.

(** ** The hash *)

Example sha1_empty :
  Sha1.hex (Sha1.Sum (Go.bytes_of_string "")) = "da39a3ee5e6b4b0d3255bfef95601890afd80709".
Proof. vm_compute. reflexivity. Qed.

Example sha1_abc :
  Sha1.hex (Sha1.Sum (Go.bytes_of_string "abc")) = "a9993e364706816aba3e25717850c26c9cd0d89d".
Proof. vm_compute. reflexivity. Qed.

Example sha1_two_blocks :
  Sha1.hex (Sha1.Sum (Go.bytes_of_string
     "abcdbcdecdefdefgefghfghighijhijkijkljklmklmnlmnomnopnopq"))
  = "84983e441c3bd26ebaae4aa1f95129e5e54670f1".
Proof. vm_compute. reflexivity. Qed.

(** ** The overlay merger *)

Section OverlayIdentity.

(** An overlay that is present but sets nothing changes nothing either. *)
Lemma overlay_empty_identity (pod : PodSpec.t) (meta : ObjectMeta.t) (c : Container.t) :
  OverlayPodSpec (Some Sample.empty_overlay) pod = pod /\
  OverlayPodMeta (Some Sample.empty_overlay) meta = Go.Ok meta /\
  OverlayMainContainer (Some Sample.empty_overlay) c = c.
Proof.
  destruct pod, meta, c. repeat split; reflexivity.
Qed.

(** C4: applying a nil overlay is the identity: [OverlayPodSpec],
    [OverlayPodMeta] and [OverlayMainContainer] called on a nil overlay
    leave the pod spec, the pod metadata and the main container as they
    were (and [OverlayPodMeta] returns normally). *)
Theorem overlay_nil_identity (pod : PodSpec.t) (meta : ObjectMeta.t) (c : Container.t) :
  OverlayPodSpec None pod = pod /\
  OverlayPodMeta None meta = Go.Ok meta /\
  OverlayMainContainer None c = c.
Proof.
  split; [|split].
  - unfold OverlayPodSpec. reflexivity.
  - unfold OverlayPodMeta. reflexivity.
  - unfold OverlayMainContainer. reflexivity.
Qed.

End OverlayIdentity.

(** ** The bucket-claim resolver *)

Section ClaimedBucket.

Lemma ClaimedBucket_list_error (c : Client.t) (p : S3Provider.t) (e : Go.error) :
  Client.List c (identity_selector (UniqueBucketLabel p)) = Go.Err e ->
  ClaimedBucket c p = Go.Err e.
Proof.
  intros H. unfold ClaimedBucket. cbv zeta. rewrite H. reflexivity.
Qed.

(** C1: when the lookup by identity label succeeds with the claims
    [items], [ClaimedBucket] returns (nil, nil) for no claim, the claim
    itself for exactly one, and an error (and no claim) for two or more. *)
Theorem ClaimedBucket_by_count (c : Client.t) (p : S3Provider.t)
        (items : list BucketClaim.t) :
  Client.List c (identity_selector (UniqueBucketLabel p)) = Go.Ok items ->
  (length items = 0%nat -> ClaimedBucket c p = Go.Ok None) /\
  (forall bc, items = [bc] -> ClaimedBucket c p = Go.Ok (Some bc)) /\
  ((2 <= length items)%nat -> exists e, ClaimedBucket c p = Go.Err e).
Proof.
  intros Hlist. unfold ClaimedBucket. cbv zeta. rewrite Hlist.
  split; [|split].
  - destruct items as [|x xs]; [reflexivity | discriminate].
  - intros bc ->. reflexivity.
  - destruct items as [|x [|y ys]]; simpl; try lia.
    intros _. eexists. reflexivity.
Qed.

Lemma ClaimedBucket_by_count_witness :
  Client.List (Client.of_objects [Sample.claim "a" Sample.provider;
                                  Sample.claim "b" Sample.provider])
              (identity_selector (UniqueBucketLabel Sample.provider))
  = Go.Ok [Sample.claim "a" Sample.provider; Sample.claim "b" Sample.provider]
  /\ exists e, ClaimedBucket (Client.of_objects [Sample.claim "a" Sample.provider;
                                                 Sample.claim "b" Sample.provider])
                             Sample.provider = Go.Err e.
Proof.
  assert (H : Client.List (Client.of_objects [Sample.claim "a" Sample.provider;
                                              Sample.claim "b" Sample.provider])
                          (identity_selector (UniqueBucketLabel Sample.provider))
              = Go.Ok [Sample.claim "a" Sample.provider; Sample.claim "b" Sample.provider])
    by (vm_compute; reflexivity).
  split; [exact H|].
  apply (ClaimedBucket_by_count _ _ _ H). simpl. lia.
Defined.

(** Seeding zero, one and two claims under one identity label. *)
Example ClaimedBucket_seeded :
  ClaimedBucket (Client.of_objects []) Sample.provider = Go.Ok None /\
  ClaimedBucket (Client.of_objects [Sample.claim "a" Sample.provider]) Sample.provider
  = Go.Ok (Some (Sample.claim "a" Sample.provider)) /\
  ClaimedBucket (Client.of_objects [Sample.claim "a" Sample.provider;
                                    Sample.claim "b" Sample.provider]) Sample.provider
  = Go.Err "list more than one buckets".
Proof. repeat split; vm_compute; reflexivity. Qed.

End ClaimedBucket.

(** ** The dependency snapshot of [syncPods] *)

Section SyncPods.
Context (env : Env.t).

Lemma buildDNSetConfigMap_nil_logset (dn : DNSet.t) :
  buildDNSetConfigMap env dn None = Go.Panic.
Proof. reflexivity. Qed.

Lemma buildDNSetConfigMap_pending (dn : DNSet.t) (ls : LogSet.t) :
  LogSetStatus.Discovery (LogSet.Status ls) = None ->
  buildDNSetConfigMap env dn (Some ls) = Go.Err discovery_not_ready.
Proof.
  intros H. unfold buildDNSetConfigMap. simpl. rewrite H. reflexivity.
Qed.

(** C9: [syncPods] dereferences [ctx.Dep] in its first statement.  With a
    nil dependency snapshot the call panics before anything is written,
    whatever the rest of the context is, so a call that does not panic had
    a non-nil snapshot; the test [ctx.Dep != nil] further down is reached
    only in that case. *)
Theorem syncPods_needs_dep (ctx : Context.t) (sts : StatefulSet.t) :
  (Context.Dep ctx = None -> syncPods env ctx sts = (sts, Go.Panic)) /\
  (snd (syncPods env ctx sts) <> Go.Panic -> Context.Dep ctx <> None).
Proof.
  assert (Hnil : Context.Dep ctx = None -> syncPods env ctx sts = (sts, Go.Panic)).
  { intros H. unfold syncPods. rewrite H. reflexivity. }
  split; [exact Hnil|].
  intros Hrun Hdep. apply Hrun. rewrite (Hnil Hdep). reflexivity.
Qed.

(** C3 as the code has it: with a dependency snapshot whose log set has
    not published a discovery address, [buildDNSetConfigMap] fails with
    the error "HAKeeper discovery address not ready" and [syncPods] hands
    that error back, leaving the stateful set untouched. *)
Theorem syncPods_discovery_absent (ctx : Context.t) (sts : StatefulSet.t)
        (dep : DNSet.t) (ls : LogSet.t) :
  Context.Dep ctx = Some dep ->
  DNSetDeps.LogSet (DNSet.Deps dep) = Some ls ->
  LogSetStatus.Discovery (LogSet.Status ls) = None ->
  buildDNSetConfigMap env (Context.Obj ctx) (Some ls) = Go.Err discovery_not_ready /\
  syncPods env ctx sts = (sts, Go.Err discovery_not_ready).
Proof.
  intros Hdep Hls Hdisc.
  pose proof (buildDNSetConfigMap_pending (Context.Obj ctx) ls Hdisc) as Hcm.
  split; [exact Hcm|].
  unfold syncPods. rewrite Hdep. simpl. rewrite Hls, Hcm. reflexivity.
Qed.

End SyncPods.

Lemma syncPods_needs_dep_witness :
  Context.Dep Sample.ctx_no_dep = None /\
  syncPods Sample.env Sample.ctx_no_dep Sample.sts = (Sample.sts, Go.Panic).
Proof.
  split; [reflexivity|].
  apply (proj1 (syncPods_needs_dep Sample.env Sample.ctx_no_dep Sample.sts)).
  reflexivity.
Defined.

Lemma syncPods_discovery_absent_witness :
  syncPods Sample.env Sample.ctx_pending Sample.sts
  = (Sample.sts, Go.Err discovery_not_ready).
Proof.
  apply (syncPods_discovery_absent Sample.env Sample.ctx_pending Sample.sts
           (Sample.dnset (Some (Sample.logset None))) (Sample.logset None));
    reflexivity.
Defined.

(** C3 as stated fails: the discovery address is absent, and the
    reconciler returns an error, not a nil error. *)
Lemma syncPods_discovery_absent_is_error :
  LogSetStatus.Discovery (LogSet.Status (Sample.logset None)) = None /\
  snd (syncPods Sample.env Sample.ctx_pending Sample.sts) <> Go.Ok tt /\
  snd (syncPods Sample.env Sample.ctx_pending Sample.sts)
  = Go.Err "HAKeeper discovery address not ready".
Proof.
  split; [reflexivity|]. split; [|vm_compute; reflexivity].
  vm_compute. discriminate.
Qed.

(** ** The bucket identity *)

Section BucketIdentity.

(** C10: with equal endpoint and path, a provider whose type is nil and a
    provider whose type is the empty string get the same identity. *)
Theorem UniqueBucketLabel_nil_type_is_empty (p1 p2 : S3Provider.t) :
  S3Provider.Type_ p1 = None ->
  S3Provider.Type_ p2 = Some "" ->
  S3Provider.Endpoint p1 = S3Provider.Endpoint p2 ->
  S3Provider.Path p1 = S3Provider.Path p2 ->
  UniqueBucketLabel p1 = UniqueBucketLabel p2.
Proof.
  intros H1 H2 He Hp. unfold UniqueBucketLabel, uniqId, providerType.
  rewrite H1, H2, He, Hp. reflexivity.
Qed.

Lemma UniqueBucketLabel_nil_type_is_empty_witness :
  UniqueBucketLabel (S3Provider.mk "bucket/dir" None "http://minio:9000" None)
  = UniqueBucketLabel (S3Provider.mk "bucket/dir" (Some "") "http://minio:9000" None).
Proof.
  apply UniqueBucketLabel_nil_type_is_empty; reflexivity.
Defined.

End BucketIdentity.

(** ** The failover query *)

Section Failover.

Lemma minDuration_value : Time.minDuration = -9223372036854775808.
Proof. reflexivity. Qed.

Lemma maxDuration_value : Time.maxDuration = 9223372036854775807.
Proof. reflexivity. Qed.

(** Saturation of [Sub] does not show in the comparison with a duration
    above the least one. *)
Lemma Sub_threshold (a u : Time.t) (d : Time.Duration) :
  Time.minDuration < d <= Time.maxDuration ->
  (d <=? Time.Sub a u) = (u <=? a - d).
Proof.
  rewrite minDuration_value, maxDuration_value. intros Hd.
  unfold Time.Sub. rewrite minDuration_value, maxDuration_value.
  destruct (Z.ltb_spec (a - u) (-9223372036854775808));
    [|destruct (Z.ltb_spec 9223372036854775807 (a - u))];
    destruct (Z.leb_spec u (a - d));
    first [apply Z.leb_le; lia | apply Z.leb_gt; lia].
Qed.

(** The loop keeps the stores in order, each judged against the clock
    reading of its own iteration. *)
Lemma StoresFailedFor_loop_app now d failed :
  forall i acc,
    StoresFailedFor_loop now i failed d acc
    = acc ++ StoresFailedFor_loop now i failed d [].
Proof.
  induction failed as [|st rest IH]; intros i acc; simpl.
  - rewrite app_nil_r. reflexivity.
  - destruct (d <=? Time.Sub (now i) (Store.LastTransitionTime st)).
    + rewrite (IH (S i) (acc ++ [st])), (IH (S i) [st]), <- app_assoc. reflexivity.
    + apply IH.
Qed.

Lemma StoresFailedFor_loop_steady now t0 d failed :
  (forall i, now i = t0) ->
  Time.minDuration < d <= Time.maxDuration ->
  forall i,
    StoresFailedFor_loop now i failed d []
    = List.filter (fun st => Store.LastTransitionTime st <=? t0 - d) failed.
Proof.
  intros Hnow Hd. induction failed as [|st rest IH]; intros i; simpl; [reflexivity|].
  rewrite StoresFailedFor_loop_app, IH, Hnow, (Sub_threshold _ _ _ Hd).
  destruct (_ <=? _); reflexivity.
Qed.

(** The loop, reading by reading: the store met in iteration [k] is kept
    exactly when its timestamp is at or before the clock reading of that
    iteration less [d]. *)
Lemma StoresFailedFor_loop_indexed now d failed :
  Time.minDuration < d <= Time.maxDuration ->
  forall i,
    StoresFailedFor_loop now i failed d []
    = List.map snd
        (List.filter (fun p => Store.LastTransitionTime (snd p) <=? now (fst p) - d)
                     (combine (seq i (length failed)) failed)).
Proof.
  intros Hd. induction failed as [|st rest IH]; intros i; [reflexivity|].
  cbn [StoresFailedFor_loop length seq combine List.filter fst snd].
  rewrite StoresFailedFor_loop_app, IH, (Sub_threshold _ _ _ Hd).
  destruct (_ <=? _); reflexivity.
Qed.

(** C6 as the code has it: for a duration [d] above the least [int64],
    [StoresFailedFor d] returns, in their order, exactly the failed stores
    that have been failed for at least [d] when the loop reaches them:
    the store met in iteration [k] is returned exactly when its timestamp
    is at or before [n - d], [n] being the value of [time.Now()] read in
    that iteration.  The failover status is left as it was.  When the
    clock reads one value [t0] throughout the call, these are exactly the
    stores recorded at or before [t0 - d]; then, for a positive [d], a
    store recorded at [t0 - 2d] is returned and a store recorded at
    [t0 - d/2] is not. *)
Theorem StoresFailedFor_at_least (now : Time.clock) (s : FailoverStatus.t)
        (d : Time.Duration) :
  Time.minDuration < d <= Time.maxDuration ->
  fst (StoresFailedFor now s d)
  = List.map snd
      (List.filter (fun p => Store.LastTransitionTime (snd p) <=? now (fst p) - d)
                   (combine (seq 0 (length (FailoverStatus.FailedStores s)))
                            (FailoverStatus.FailedStores s))) /\
  snd (StoresFailedFor now s d) = s /\
  (forall t0,
      (forall i, now i = t0) ->
      fst (StoresFailedFor now s d)
      = List.filter (fun st => Store.LastTransitionTime st <=? t0 - d)
                    (FailoverStatus.FailedStores s) /\
      (0 < d ->
       forall st, In st (FailoverStatus.FailedStores s) ->
         (Store.LastTransitionTime st = t0 - 2 * d ->
          In st (fst (StoresFailedFor now s d))) /\
         (Store.LastTransitionTime st = t0 - d / 2 ->
          ~ In st (fst (StoresFailedFor now s d))))).
Proof.
  intros Hd. split; [|split].
  - unfold StoresFailedFor. simpl. apply StoresFailedFor_loop_indexed. exact Hd.
  - reflexivity.
  - intros t0 Hnow.
    assert (Hfst : fst (StoresFailedFor now s d)
                   = List.filter (fun st => Store.LastTransitionTime st <=? t0 - d)
                                 (FailoverStatus.FailedStores s)).
    { unfold StoresFailedFor. simpl. apply StoresFailedFor_loop_steady; assumption. }
    split; [exact Hfst|].
    intros Hpos st Hin. rewrite Hfst. split; intros Ht.
    + apply filter_In. split; [exact Hin|]. apply Z.leb_le. lia.
    + intros Hin'. apply filter_In in Hin'. destruct Hin' as [_ Hle].
      apply Z.leb_le in Hle.
      assert (d / 2 < d) by (apply Z.div_lt; lia). lia.
Qed.

(** The clock moves from 99 to 102 between the two iterations: the store
    recorded at 92 is returned, the older one recorded at 90 is not. *)
Lemma StoresFailedFor_at_least_witness :
  fst (StoresFailedFor (fun i => match i with O => 99 | _ => 102 end)
         (FailoverStatus.mk [Store.mk "dn-0" "" 90; Store.mk "dn-1" "" 92]) 10)
  = [Store.mk "dn-1" "" 92].
Proof.
  apply (StoresFailedFor_at_least (fun i => match i with O => 99 | _ => 102 end)
           (FailoverStatus.mk [Store.mk "dn-0" "" 90; Store.mk "dn-1" "" 92]) 10).
  rewrite minDuration_value, maxDuration_value. lia.
Defined.

(** C6 as stated fails at the boundary and for a zero duration: a store
    recorded exactly at [now - d] is returned although it is not older
    than [now - d], and with [d = 0] the store recorded at [now - d/2] is
    returned. *)
Lemma StoresFailedFor_not_strictly_older :
  (In (Store.mk "dn-0" "" 90)
      (fst (StoresFailedFor (fun _ => 100) (FailoverStatus.mk [Store.mk "dn-0" "" 90]) 10))
   /\ ~ (Store.LastTransitionTime (Store.mk "dn-0" "" 90) < 100 - 10)) /\
  In (Store.mk "dn-0" "" (100 - 0 / 2))
     (fst (StoresFailedFor (fun _ => 100)
             (FailoverStatus.mk [Store.mk "dn-0" "" (100 - 0 / 2)]) 0)).
Proof.
  split; [split|].
  - vm_compute. left. reflexivity.
  - simpl. lia.
  - vm_compute. left. reflexivity.
Qed.

(** Whatever the clock does, each store is judged against the reading of
    its own iteration, and a second call with the same readings returns
    the same stores. *)
Lemma StoresFailedFor_loop_readings now d failed :
  forall i st,
    In st (StoresFailedFor_loop now i failed d []) ->
    exists k, nth_error failed k = Some st /\
              d <= Time.Sub (now (i + k)%nat) (Store.LastTransitionTime st).
Proof.
  induction failed as [|x rest IH]; intros i st; simpl; [tauto|].
  rewrite StoresFailedFor_loop_app. intros Hin. apply in_app_or in Hin.
  destruct Hin as [Hin|Hin].
  - destruct (d <=? Time.Sub (now i) (Store.LastTransitionTime x)) eqn:E; simpl in Hin;
      [|tauto].
    destruct Hin as [<-|[]]. exists 0%nat. split; [reflexivity|].
    rewrite Nat.add_0_r. apply Z.leb_le. exact E.
  - destruct (IH _ _ Hin) as [k [Hk Hf]]. exists (S k). split; [exact Hk|].
    rewrite Nat.add_succ_r. exact Hf.
Qed.

End Failover.

(** ** The identity is a hex digest of the three fields *)

Section Digest.

Lemma be_bytes_length n x : length (Sha1.be_bytes n x) = n.
Proof.
  unfold Sha1.be_bytes. rewrite length_map, length_rev, length_seq. reflexivity.
Qed.

Lemma be_bytes_range n x : Forall Sha1.is_byte (Sha1.be_bytes n x).
Proof.
  unfold Sha1.be_bytes. apply List.Forall_forall. intros b Hb.
  apply in_map_iff in Hb. destruct Hb as [i [<- _]].
  change 255 with (Z.ones 8). rewrite Z.land_ones by lia.
  unfold Sha1.is_byte. change 256 with (2 ^ 8). apply Z.mod_pos_bound. lia.
Qed.

Lemma Sum_length msg : length (Sha1.Sum msg) = 20%nat.
Proof.
  unfold Sha1.Sum. cbv zeta. rewrite !length_app, !be_bytes_length. reflexivity.
Qed.

Lemma Sum_range msg : Forall Sha1.is_byte (Sha1.Sum msg).
Proof.
  unfold Sha1.Sum. cbv zeta. repeat (apply Forall_app; split); apply be_bytes_range.
Qed.

Lemma hex_length bs : String.length (Sha1.hex bs) = (2 * length bs)%nat.
Proof.
  induction bs as [|b rest IH]; simpl; [reflexivity|]. rewrite IH. lia.
Qed.

Lemma hex_digit_inj d1 d2 :
  0 <= d1 < 16 -> 0 <= d2 < 16 -> Sha1.hex_digit d1 = Sha1.hex_digit d2 -> d1 = d2.
Proof.
  intros H1 H2 H. unfold Sha1.hex_digit in H.
  apply (f_equal N_of_ascii) in H.
  assert (Hlt : forall d : Z, 0 <= d < 16 ->
                 (Z.to_N (if (d <? 10)%Z then (48 + d)%Z else (87 + d)%Z) < 256)%N).
  { intros d Hd. destruct (d <? 10); lia. }
  rewrite !N_ascii_embedding in H by (apply Hlt; assumption).
  destruct (Z.ltb_spec d1 10), (Z.ltb_spec d2 10); lia.
Qed.

Lemma hex_inj bs1 :
  forall bs2, Forall Sha1.is_byte bs1 -> Forall Sha1.is_byte bs2 ->
              Sha1.hex bs1 = Sha1.hex bs2 -> bs1 = bs2.
Proof.
  induction bs1 as [|b1 r1 IH]; intros [|b2 r2] F1 F2 H; simpl in H;
    try reflexivity; try discriminate.
  inversion F1 as [|? ? Hb1 Hr1]; inversion F2 as [|? ? Hb2 Hr2]; subst.
  injection H as Hhi Hlo Hrest.
  unfold Sha1.is_byte in Hb1, Hb2.
  rewrite !Z.shiftr_div_pow2 in Hhi by lia. change (2 ^ 4) with 16 in Hhi.
  apply hex_digit_inj in Hhi; try (apply Z.mod_pos_bound; lia).
  apply hex_digit_inj in Hlo; try (apply Z.mod_pos_bound; lia).
  rewrite !Z.mod_small in Hhi
    by (split; [apply Z.div_pos; lia | apply Z.div_lt_upper_bound; lia]).
  f_equal; [|apply IH; assumption].
  rewrite (Z.div_mod b1 16), (Z.div_mod b2 16) by lia. congruence.
Qed.

(** Equal identities are equal digests. *)
Lemma UniqueBucketLabel_eq_digest (p1 p2 : S3Provider.t) :
  UniqueBucketLabel p1 = UniqueBucketLabel p2 <->
  Sha1.Sum (Go.bytes_of_string (uniqId p1)) = Sha1.Sum (Go.bytes_of_string (uniqId p2)).
Proof.
  unfold UniqueBucketLabel. cbv zeta. split.
  - apply hex_inj; apply Sum_range.
  - intros ->. reflexivity.
Qed.

Lemma append_length (a b : string) :
  String.length (a +:+ b) = (String.length a + String.length b)%nat.
Proof. induction a as [|c a IH]; simpl; [reflexivity | rewrite IH; reflexivity]. Qed.

Lemma append_inv_head (a b1 b2 : string) : a +:+ b1 = a +:+ b2 -> b1 = b2.
Proof.
  induction a as [|c a IH]; simpl; intros H; [exact H|].
  injection H as H. apply IH. exact H.
Qed.

Lemma append_inv_tail (b : string) :
  forall a1 a2 : string, a1 +:+ b = a2 +:+ b -> a1 = a2.
Proof.
  induction a1 as [|c1 a1 IH]; intros [|c2 a2] H.
  - reflexivity.
  - exfalso. apply (f_equal String.length) in H.
    rewrite !append_length in H. simpl in H. lia.
  - exfalso. apply (f_equal String.length) in H.
    rewrite !append_length in H. simpl in H. lia.
  - simpl in H. injection H as -> H. f_equal. apply IH. exact H.
Qed.

Lemma uniqId_fields (p : S3Provider.t) :
  uniqId p = providerType p +:+ "-" +:+ S3Provider.Endpoint p +:+ "-" +:+ S3Provider.Path p.
Proof. reflexivity. Qed.

(** Changing one field, the other two kept, changes the hashed string. *)
Lemma uniqId_one_field (p1 p2 : S3Provider.t) :
  (providerType p1 <> providerType p2 /\
   S3Provider.Endpoint p1 = S3Provider.Endpoint p2 /\
   S3Provider.Path p1 = S3Provider.Path p2) \/
  (providerType p1 = providerType p2 /\
   S3Provider.Endpoint p1 <> S3Provider.Endpoint p2 /\
   S3Provider.Path p1 = S3Provider.Path p2) \/
  (providerType p1 = providerType p2 /\
   S3Provider.Endpoint p1 = S3Provider.Endpoint p2 /\
   S3Provider.Path p1 <> S3Provider.Path p2) ->
  uniqId p1 <> uniqId p2.
Proof.
  rewrite !uniqId_fields.
  intros [[Ht [He Hp]]|[[Ht [He Hp]]|[Ht [He Hp]]]] H.
  - rewrite He, Hp in H. apply append_inv_tail in H. contradiction.
  - rewrite Ht, Hp in H. apply append_inv_head in H. apply append_inv_head in H.
    apply append_inv_tail in H. contradiction.
  - rewrite Ht, He in H. do 4 apply append_inv_head in H. contradiction.
Qed.

Lemma hex_digit_is_hex d : 0 <= d < 16 -> Sha1.is_hex_char (Sha1.hex_digit d) = true.
Proof.
  intros Hd.
  assert (H : d = 0 \/ d = 1 \/ d = 2 \/ d = 3 \/ d = 4 \/ d = 5 \/ d = 6 \/ d = 7 \/
              d = 8 \/ d = 9 \/ d = 10 \/ d = 11 \/ d = 12 \/ d = 13 \/ d = 14 \/ d = 15)
    by lia.
  repeat (destruct H as [->|H]; [reflexivity|]). subst d. reflexivity.
Qed.

Lemma hex_chars bs :
  forallb Sha1.is_hex_char (list_ascii_of_string (Sha1.hex bs)) = true.
Proof.
  induction bs as [|b rest IH]; [reflexivity|].
  cbn [Sha1.hex list_ascii_of_string forallb].
  rewrite IH, !hex_digit_is_hex by (apply Z.mod_pos_bound; lia). reflexivity.
Qed.

(** C7 as the code has it: the identity is a function of the provider
    type (a nil type reading as the empty string), the endpoint and the
    path, and of nothing else; it is 40 lower-case hex characters; and two
    providers that differ in exactly one of these three hash different
    strings, so that their identities coincide only if their SHA-1 digests
    do. *)
Theorem UniqueBucketLabel_of_fields (p1 p2 : S3Provider.t) :
  (providerType p1 = providerType p2 ->
   S3Provider.Endpoint p1 = S3Provider.Endpoint p2 ->
   S3Provider.Path p1 = S3Provider.Path p2 ->
   UniqueBucketLabel p1 = UniqueBucketLabel p2) /\
  (String.length (UniqueBucketLabel p1) = 40%nat /\
   forallb Sha1.is_hex_char (list_ascii_of_string (UniqueBucketLabel p1)) = true) /\
  ((providerType p1 <> providerType p2 /\
    S3Provider.Endpoint p1 = S3Provider.Endpoint p2 /\
    S3Provider.Path p1 = S3Provider.Path p2) \/
   (providerType p1 = providerType p2 /\
    S3Provider.Endpoint p1 <> S3Provider.Endpoint p2 /\
    S3Provider.Path p1 = S3Provider.Path p2) \/
   (providerType p1 = providerType p2 /\
    S3Provider.Endpoint p1 = S3Provider.Endpoint p2 /\
    S3Provider.Path p1 <> S3Provider.Path p2) ->
   uniqId p1 <> uniqId p2 /\
   (UniqueBucketLabel p1 = UniqueBucketLabel p2 ->
    Sha1.Sum (Go.bytes_of_string (uniqId p1)) = Sha1.Sum (Go.bytes_of_string (uniqId p2)))).
Proof.
  split; [|split].
  - intros Ht He Hp. unfold UniqueBucketLabel, uniqId. rewrite Ht, He, Hp. reflexivity.
  - split.
    + unfold UniqueBucketLabel. cbv zeta. rewrite hex_length, Sum_length. reflexivity.
    + apply hex_chars.
  - intros Hdiff. split.
    + apply uniqId_one_field. exact Hdiff.
    + apply UniqueBucketLabel_eq_digest.
Qed.

Lemma UniqueBucketLabel_of_fields_witness :
  UniqueBucketLabel (S3Provider.mk "bucket/dir" (Some "minio") "http://minio:9000" None)
  = UniqueBucketLabel (S3Provider.mk "bucket/dir" (Some "minio") "http://minio:9000"
                                     (Some "minio-secret"))
  /\ uniqId (S3Provider.mk "bucket/dir" (Some "minio") "http://minio:9000" None)
     <> uniqId (S3Provider.mk "bucket/dir" (Some "aws") "http://minio:9000" None).
Proof.
  split.
  - apply (UniqueBucketLabel_of_fields
             (S3Provider.mk "bucket/dir" (Some "minio") "http://minio:9000" None)
             (S3Provider.mk "bucket/dir" (Some "minio") "http://minio:9000"
                            (Some "minio-secret"))); reflexivity.
  - apply (UniqueBucketLabel_of_fields
             (S3Provider.mk "bucket/dir" (Some "minio") "http://minio:9000" None)
             (S3Provider.mk "bucket/dir" (Some "aws") "http://minio:9000" None)).
    left. split; [discriminate|]. split; reflexivity.
Defined.

(** C7 as stated fails: these two providers differ in their type field
    and in nothing else, and have the same identity. *)
Lemma UniqueBucketLabel_type_not_told_apart :
  S3Provider.Type_ (S3Provider.mk "bucket/dir" None "http://minio:9000" None)
  <> S3Provider.Type_ (S3Provider.mk "bucket/dir" (Some "") "http://minio:9000" None) /\
  S3Provider.Endpoint (S3Provider.mk "bucket/dir" None "http://minio:9000" None)
  = S3Provider.Endpoint (S3Provider.mk "bucket/dir" (Some "") "http://minio:9000" None) /\
  S3Provider.Path (S3Provider.mk "bucket/dir" None "http://minio:9000" None)
  = S3Provider.Path (S3Provider.mk "bucket/dir" (Some "") "http://minio:9000" None) /\
  UniqueBucketLabel (S3Provider.mk "bucket/dir" None "http://minio:9000" None)
  = UniqueBucketLabel (S3Provider.mk "bucket/dir" (Some "") "http://minio:9000" None).
Proof.
  split; [discriminate|]. repeat split; reflexivity.
Qed.

(** The separator may occur inside a field: providers that differ in two
    fields can hash the same string. *)
Example UniqueBucketLabel_separator :
  UniqueBucketLabel (S3Provider.mk "dir" (Some "a-b") "c" None)
  = UniqueBucketLabel (S3Provider.mk "dir" (Some "a") "b-c" None).
Proof. reflexivity. Qed.

Example UniqueBucketLabel_sample :
  UniqueBucketLabel Sample.provider = "d613791bc2ea13f8b05c1af02b48ca6da2a7d355".
Proof. vm_compute. reflexivity. Qed.

End Digest.

(** ** Upsert by name *)

Lemma filter_none {A} (p : A -> bool) (l : list A) :
  (forall x, In x l -> p x = false) -> List.filter p l = [].
Proof.
  induction l as [|x rest IH]; simpl; intros H; [reflexivity|].
  rewrite (H x) by (left; reflexivity). apply IH. intros y Hy. apply H. right. exact Hy.
Qed.

Section Upsert.
Context {E : Type} (key : E -> string).

Local Abbreviation replaced := (Util.replaced key).
Local Abbreviation fresh := (Util.fresh key).

Lemma fresh_spec old v : fresh old v = true <-> ~ In (key v) (List.map key old).
Proof.
  unfold Util.fresh. rewrite negb_true_iff, <- not_true_iff_false, existsb_exists.
  split; intros H Hin; apply H.
  - apply in_map_iff in Hin. destruct Hin as [x [Hx Hin]].
    exists x. split; [exact Hin|]. apply String.eqb_eq. exact Hx.
  - destruct Hin as [x [Hin Hx]]. apply String.eqb_eq in Hx.
    apply in_map_iff. exists x. split; assumption.
Qed.

Lemma UpsertByKey_absent old v :
  ~ In (key v) (List.map key old) -> Util.UpsertByKey key old v = old ++ [v].
Proof.
  induction old as [|x rest IH]; simpl; intros Hnot; [reflexivity|].
  destruct (String.eqb_spec (key x) (key v)) as [Heq|Hne].
  - exfalso. apply Hnot. left. exact Heq.
  - rewrite IH; [reflexivity|]. intros Hin. apply Hnot. right. exact Hin.
Qed.

Lemma UpsertByKey_present old v :
  List.NoDup (List.map key old) -> In (key v) (List.map key old) ->
  Util.UpsertByKey key old v = List.map (replaced [v]) old.
Proof.
  induction old as [|x rest IH]; simpl; intros Hnd Hin; [tauto|].
  inversion Hnd as [|? ? Hx Hrest]; subst.
  unfold Util.replaced at 1. simpl. rewrite (String.eqb_sym (key v) (key x)).
  destruct (String.eqb_spec (key x) (key v)) as [Heq|Hne].
  - f_equal. symmetry. erewrite map_ext_in; [apply map_id|].
    intros y Hy. unfold Util.replaced. simpl.
    destruct (String.eqb_spec (key v) (key y)) as [Hvy|]; [|reflexivity].
    exfalso. apply Hx. rewrite Heq, Hvy. apply in_map. exact Hy.
  - f_equal. apply IH; [exact Hrest|]. destruct Hin as [Hin|Hin]; [contradiction|exact Hin].
Qed.

Lemma UpsertByKey_keys old v :
  In (key v) (List.map key old) ->
  List.map key (Util.UpsertByKey key old v) = List.map key old.
Proof.
  induction old as [|x rest IH]; simpl; intros Hin; [tauto|].
  destruct (String.eqb_spec (key x) (key v)) as [Heq|Hne]; simpl.
  - rewrite Heq. reflexivity.
  - f_equal. apply IH. destruct Hin as [Hin|Hin]; [contradiction|exact Hin].
Qed.

Lemma fresh_ext old old' v :
  List.map key old = List.map key old' -> fresh old v = fresh old' v.
Proof.
  intros Hk. apply eq_true_iff_eq. rewrite !fresh_spec, Hk. reflexivity.
Qed.

Lemma replaced_none new x :
  ~ In (key x) (List.map key new) -> replaced new x = x.
Proof.
  intros Hnot. unfold Util.replaced.
  destruct (List.find _ new) as [v|] eqn:Hf; [|reflexivity].
  exfalso. apply find_some in Hf. destruct Hf as [Hin Heq].
  apply String.eqb_eq in Heq. apply Hnot. rewrite <- Heq. apply in_map. exact Hin.
Qed.

Lemma replaced_key new x : key (replaced new x) = key x.
Proof.
  unfold Util.replaced. destruct (List.find _ new) as [v|] eqn:Hf; [|reflexivity].
  apply find_some in Hf. destruct Hf as [_ Heq]. apply String.eqb_eq. exact Heq.
Qed.

(** The upsert of a whole list, for lists without repeated keys. *)
Lemma UpsertListByKey_shape new :
  forall old,
    List.NoDup (List.map key old) -> List.NoDup (List.map key new) ->
    Util.UpsertListByKey old new key
    = List.map (replaced new) old ++ List.filter (fresh old) new.
Proof.
  unfold Util.UpsertListByKey.
  induction new as [|v vs IH]; intros old Hold Hnew; simpl.
  - rewrite app_nil_r. symmetry. apply map_id.
  - inversion Hnew as [|? ? Hv Hvs]; subst.
    destruct (in_dec string_dec (key v) (List.map key old)) as [Hin|Hnot].
    + assert (Hfr : fresh old v = false).
      { apply not_true_iff_false. rewrite fresh_spec. tauto. }
      rewrite Hfr, IH;
        [|rewrite UpsertByKey_keys by exact Hin; exact Hold | exact Hvs].
      f_equal.
      * rewrite UpsertByKey_present by assumption. rewrite map_map.
        apply map_ext. intros x. unfold Util.replaced at 2 3. simpl.
        destruct (String.eqb_spec (key v) (key x)) as [Hvx|Hvx].
        -- apply replaced_none. exact Hv.
        -- reflexivity.
      * apply filter_ext. intros w. apply fresh_ext.
        apply UpsertByKey_keys. exact Hin.
    + assert (Hfr : fresh old v = true) by (apply fresh_spec; exact Hnot).
      rewrite Hfr, UpsertByKey_absent by exact Hnot. rewrite IH; [| |exact Hvs].
      * rewrite map_app. simpl. rewrite <- app_assoc. simpl. f_equal.
        -- apply map_ext_in. intros x Hx. unfold Util.replaced at 2. simpl.
           destruct (String.eqb_spec (key v) (key x)) as [Hvx|Hvx]; [|reflexivity].
           exfalso. apply Hnot. rewrite Hvx. apply in_map. exact Hx.
        -- f_equal; [apply replaced_none; exact Hv|].
           apply filter_ext_in. intros w Hw. apply eq_true_iff_eq.
           rewrite !fresh_spec, map_app, in_app_iff. simpl.
           split; [tauto|]. intros H [H1|[H1|[]]]; [tauto|].
           apply Hv. rewrite H1. apply in_map. exact Hw.
      * rewrite map_app. simpl. apply List.NoDup_app; [exact Hold | |].
        -- apply List.NoDup_cons; [simpl; tauto | apply List.NoDup_nil].
        -- intros k Hk [<-|[]]. apply Hnot. exact Hk.
Qed.

Lemma replaced_some new x v :
  List.NoDup (List.map key new) -> In v new -> key v = key x -> replaced new x = v.
Proof.
  induction new as [|w ws IH]; simpl; intros Hnd Hin Hk; [tauto|].
  inversion Hnd as [|? ? Hw Hws]; subst.
  unfold Util.replaced. simpl.
  destruct (String.eqb_spec (key w) (key x)) as [Hwx|Hwx].
  - destruct Hin as [->|Hin]; [reflexivity|].
    exfalso. apply Hw. rewrite Hwx, <- Hk. apply in_map. exact Hin.
  - destruct Hin as [->|Hin]; [contradiction|]. apply IH; assumption.
Qed.

Lemma fresh_key old v w : key v = key w -> fresh old v = fresh old w.
Proof. intros Hk. unfold Util.fresh. rewrite Hk. reflexivity. Qed.

(** Entries whose key no new entry carries come out as they went in, in
    their order. *)
Lemma untouched_kept new old :
  List.filter (fresh new) (List.map (replaced new) old ++ List.filter (fresh old) new)
  = List.filter (fresh new) old.
Proof.
  rewrite List.filter_app.
  assert (Hnone : List.filter (fresh new) (List.filter (fresh old) new) = []).
  { apply filter_none. intros y Hy. apply filter_In in Hy. destruct Hy as [Hy _].
    apply not_true_iff_false. rewrite fresh_spec. intros Hn. apply Hn.
    apply in_map. exact Hy. }
  rewrite Hnone, app_nil_r. clear Hnone.
  induction old as [|x rest IH]; simpl; [reflexivity|].
  rewrite (fresh_key new _ x (replaced_key new x)), IH.
  destruct (fresh new x) eqn:Hf; [|reflexivity].
  rewrite replaced_none by (apply fresh_spec; exact Hf). reflexivity.
Qed.

(** Without any assumption on the names: an existing entry keeps its
    position and its key through an upsert. *)
Lemma UpsertByKey_nth old v :
  forall i x, nth_error old i = Some x ->
              exists y, nth_error (Util.UpsertByKey key old v) i = Some y /\ key y = key x.
Proof.
  induction old as [|x0 rest IH]; intros i x Hi; [destruct i; discriminate|].
  simpl. destruct (String.eqb_spec (key x0) (key v)) as [Heq|Hne].
  - destruct i as [|i]; simpl in *.
    + injection Hi as <-. exists v. split; [reflexivity | symmetry; exact Heq].
    + exists x. split; [exact Hi | reflexivity].
  - destruct i as [|i]; simpl in *.
    + exists x. split; [exact Hi | reflexivity].
    + apply IH. exact Hi.
Qed.

Lemma UpsertListByKey_nth new :
  forall old i x, nth_error old i = Some x ->
                  exists y, nth_error (Util.UpsertListByKey old new key) i = Some y /\
                            key y = key x.
Proof.
  unfold Util.UpsertListByKey.
  induction new as [|v vs IH]; intros old i x Hi; simpl.
  - exists x. split; [exact Hi | reflexivity].
  - destruct (UpsertByKey_nth old v i x Hi) as [y [Hy Hk]].
    destruct (IH _ i y Hy) as [z [Hz Hkz]]. exists z. split; [exact Hz | congruence].
Qed.

(** Without any assumption on the names: the entries selected by their
    key, when no new entry has such a key, come out as they went in. *)
Lemma UpsertByKey_filter (P : string -> bool) old v :
  P (key v) = false ->
  List.filter (fun x => P (key x)) (Util.UpsertByKey key old v)
  = List.filter (fun x => P (key x)) old.
Proof.
  intros Hv. induction old as [|x rest IH]; simpl.
  - rewrite Hv. reflexivity.
  - destruct (String.eqb_spec (key x) (key v)) as [Heq|Hne]; simpl.
    + rewrite Hv, Heq, Hv. reflexivity.
    + rewrite IH. reflexivity.
Qed.

Lemma UpsertListByKey_untouched new old :
  List.filter (fresh new) (Util.UpsertListByKey old new key) = List.filter (fresh new) old.
Proof.
  unfold Util.UpsertListByKey, Util.fresh.
  set (P := fun k : string => negb (existsb (fun w => String.eqb (key w) k) new)).
  change (List.filter (fun x => P (key x)) (fold_left (Util.UpsertByKey key) new old)
          = List.filter (fun x => P (key x)) old).
  assert (HP : forall w, In w new -> P (key w) = false).
  { intros w Hw. unfold P. apply negb_false_iff, existsb_exists.
    exists w. split; [exact Hw | apply String.eqb_refl]. }
  clearbody P. revert old.
  induction new as [|v vs IH]; intros old; simpl; [reflexivity|].
  rewrite IH by (intros w Hw; apply HP; right; exact Hw).
  apply UpsertByKey_filter. apply HP. left. reflexivity.
Qed.

(** *** The upsert without any assumption on the names *)

Local Abbreviation latest := (Util.latest key).
Local Abbreviation distinct := (Util.distinct key).

Lemma find_app_or {A} (p : A -> bool) (l l' : list A) :
  List.find p (l ++ l')
  = match List.find p l with Some a => Some a | None => List.find p l' end.
Proof.
  induction l as [|a l IH]; simpl; [reflexivity|].
  destruct (p a); [reflexivity | exact IH].
Qed.

Lemma latest_cons v vs x :
  latest (v :: vs) x = latest vs (if String.eqb (key v) (key x) then v else x).
Proof.
  unfold Util.latest, Util.replaced. simpl rev. rewrite find_app_or. simpl.
  destruct (String.eqb_spec (key v) (key x)) as [Heq|Hne].
  - rewrite Heq. destruct (List.find _ (rev vs)); reflexivity.
  - destruct (List.find _ (rev vs)); reflexivity.
Qed.

Lemma latest_other v vs x : key v <> key x -> latest (v :: vs) x = latest vs x.
Proof.
  intros Hne. rewrite latest_cons.
  destruct (String.eqb_spec (key v) (key x)); [contradiction | reflexivity].
Qed.

Lemma latest_self v vs : latest (v :: vs) v = latest vs v.
Proof. rewrite latest_cons, String.eqb_refl. reflexivity. Qed.

Lemma latest_untouched new x : fresh new x = true -> latest new x = x.
Proof.
  intros Hf. unfold Util.latest. apply replaced_none.
  rewrite map_rev, <- in_rev. apply fresh_spec. exact Hf.
Qed.

Lemma latest_in new v x :
  In v new -> key v = key x ->
  In (latest new x) new /\ key (latest new x) = key x /\
  (List.NoDup (List.map key new) -> latest new x = v).
Proof.
  intros Hin Hk. split; [|split].
  - unfold Util.latest, Util.replaced.
    destruct (List.find _ (rev new)) as [w|] eqn:Hf.
    + apply find_some in Hf. apply in_rev. tauto.
    + exfalso. apply in_rev in Hin. apply (find_none _ _ Hf v) in Hin.
      rewrite Hk, String.eqb_refl in Hin. discriminate.
  - apply replaced_key.
  - intros Hnd. unfold Util.latest. apply replaced_some.
    + rewrite map_rev. apply List.NoDup_rev. exact Hnd.
    + apply in_rev in Hin. exact Hin.
    + exact Hk.
Qed.

Lemma UpsertByKey_keys_all old v :
  List.map key (Util.UpsertByKey key old v)
  = List.map key old ++ (if fresh old v then [key v] else []).
Proof.
  destruct (fresh old v) eqn:Hf.
  - rewrite UpsertByKey_absent by (apply fresh_spec; exact Hf).
    rewrite map_app. reflexivity.
  - rewrite app_nil_r. apply UpsertByKey_keys.
    destruct (in_dec string_dec (key v) (List.map key old)) as [Hin|Hnot]; [exact Hin|].
    apply fresh_spec in Hnot. congruence.
Qed.

(** One upsert, position by position: the first entry that has the key of
    [v] becomes [v], the others stay. *)
Lemma UpsertByKey_at v old :
  forall i x,
    nth_error old i = Some x ->
    nth_error (Util.UpsertByKey key old v) i
    = Some (if fresh (firstn i old) x && String.eqb (key v) (key x) then v else x).
Proof.
  induction old as [|x0 rest IH]; intros i x Hi; [destruct i; discriminate|].
  simpl. destruct (String.eqb_spec (key x0) (key v)) as [Heq|Hne].
  - destruct i as [|i]; simpl in Hi |- *.
    + injection Hi as <-. unfold Util.fresh. simpl.
      rewrite Heq, String.eqb_refl. reflexivity.
    + rewrite Hi. unfold Util.fresh. simpl.
      destruct (String.eqb_spec (key v) (key x)) as [Hvx|Hvx].
      * rewrite Heq, Hvx, String.eqb_refl. reflexivity.
      * rewrite andb_false_r. reflexivity.
  - destruct i as [|i]; simpl in Hi |- *.
    + injection Hi as <-. unfold Util.fresh. simpl.
      destruct (String.eqb_spec (key v) (key x0)); [congruence | reflexivity].
    + rewrite (IH i x Hi). unfold Util.fresh. simpl.
      destruct (String.eqb_spec (key v) (key x)) as [Hvx|Hvx].
      * destruct (String.eqb_spec (key x0) (key x)); [congruence | reflexivity].
      * rewrite !andb_false_r. reflexivity.
Qed.

Lemma fresh_prefix_UpsertByKey v old i x w :
  nth_error old i = Some x -> key w = key x ->
  fresh (firstn i (Util.UpsertByKey key old v)) w = fresh (firstn i old) x.
Proof.
  intros Hi Hk. rewrite (fresh_key _ w x Hk). apply fresh_ext.
  rewrite <- !firstn_map, UpsertByKey_keys_all, firstn_app.
  assert (Hlen : (i < length old)%nat) by (apply nth_error_Some; congruence).
  rewrite length_map.
  replace (i - length old)%nat with 0%nat by lia.
  simpl. apply app_nil_r.
Qed.

(** The whole upsert, position by position: the first existing entry of
    each key becomes the last new entry of that key, if there is one; the
    other existing entries stay. *)
Lemma UpsertListByKey_at new :
  forall old i x,
    nth_error old i = Some x ->
    nth_error (Util.UpsertListByKey old new key) i
    = Some (if fresh (firstn i old) x then latest new x else x).
Proof.
  unfold Util.UpsertListByKey.
  induction new as [|v vs IH]; intros old i x Hi; simpl.
  - rewrite Hi. destruct (fresh _ x); reflexivity.
  - pose proof (UpsertByKey_at v old i x Hi) as Hstep.
    rewrite (IH _ _ _ Hstep).
    rewrite (fresh_prefix_UpsertByKey v old i x _ Hi)
      by (destruct (_ && _) eqn:Hb;
          [apply andb_true_iff in Hb; destruct Hb as [_ Hb];
           apply String.eqb_eq in Hb; exact Hb | reflexivity]).
    rewrite latest_cons.
    destruct (fresh (firstn i old) x); reflexivity.
Qed.

Lemma distinct_not_seen new :
  forall seen w, In w (distinct seen new) -> ~ In (key w) seen.
Proof.
  induction new as [|v rest IH]; intros seen w Hin; simpl in Hin; [tauto|].
  destruct (existsb (String.eqb (key v)) seen) eqn:Hex.
  - apply IH. exact Hin.
  - destruct Hin as [<-|Hin].
    + intros Hseen. apply not_true_iff_false in Hex. apply Hex.
      apply existsb_exists. exists (key v). split; [exact Hseen | apply String.eqb_refl].
    + intros Hseen. apply (IH _ _ Hin). right. exact Hseen.
Qed.

Lemma distinct_ext new :
  forall seen seen',
    (forall k, In k seen <-> In k seen') -> distinct seen new = distinct seen' new.
Proof.
  induction new as [|v rest IH]; intros seen seen' Hiff; simpl; [reflexivity|].
  assert (Hex : existsb (String.eqb (key v)) seen = existsb (String.eqb (key v)) seen').
  { apply eq_true_iff_eq. rewrite !existsb_exists.
    split; intros [k [Hk Hkv]]; exists k; (split; [apply Hiff; exact Hk | exact Hkv]). }
  rewrite Hex. destruct (existsb _ seen').
  - apply IH. exact Hiff.
  - f_equal. apply IH. intros k. simpl. rewrite Hiff. reflexivity.
Qed.

Lemma skipn_nth_error {A} (l : list A) n y :
  nth_error l n = Some y -> skipn n l = y :: skipn (S n) l.
Proof.
  revert l. induction n as [|n IH]; intros [|a l] H; simpl in H; try discriminate.
  - injection H as ->. reflexivity.
  - simpl. apply IH. exact H.
Qed.

(** The whole upsert, past the existing entries: the new entries whose key
    no existing entry has, a repeated key counted once and standing where
    it comes first, each with the content of the last new entry of its
    key. *)
Lemma UpsertListByKey_appended new :
  forall old,
    skipn (length old) (Util.UpsertListByKey old new key)
    = List.map (latest new) (distinct (List.map key old) new).
Proof.
  induction new as [|v vs IH]; intros old.
  - unfold Util.UpsertListByKey. simpl. apply skipn_all.
  - change (Util.UpsertListByKey old (v :: vs) key)
      with (Util.UpsertListByKey (Util.UpsertByKey key old v) vs key).
    simpl Util.distinct.
    destruct (existsb (String.eqb (key v)) (List.map key old)) eqn:Hex.
    + assert (Hin : In (key v) (List.map key old)).
      { apply existsb_exists in Hex. destruct Hex as [k [Hk Hkv]].
        apply String.eqb_eq in Hkv. subst k. exact Hk. }
      assert (Hkeys := UpsertByKey_keys old v Hin).
      assert (Hlen : length (Util.UpsertByKey key old v) = length old).
      { rewrite <- (length_map key), Hkeys. apply length_map. }
      rewrite <- Hlen, IH, Hkeys.
      apply map_ext_in. intros w Hw. symmetry. apply latest_other.
      intros Hk. apply (distinct_not_seen _ _ _ Hw). rewrite <- Hk. exact Hin.
    + assert (Hnot : ~ In (key v) (List.map key old)).
      { intros Hin. apply not_true_iff_false in Hex. apply Hex.
        apply existsb_exists. exists (key v). split; [exact Hin | apply String.eqb_refl]. }
      rewrite (UpsertByKey_absent old v Hnot).
      assert (Hat : nth_error (Util.UpsertListByKey (old ++ [v]) vs key) (length old)
                    = Some (latest vs v)).
      { rewrite (UpsertListByKey_at vs (old ++ [v]) (length old) v)
          by (rewrite nth_error_app2, Nat.sub_diag by lia; reflexivity).
        rewrite firstn_app, firstn_all, Nat.sub_diag. simpl. rewrite app_nil_r.
        assert (Hf : fresh old v = true) by (apply fresh_spec; exact Hnot).
        rewrite Hf. reflexivity. }
      rewrite (skipn_nth_error _ _ _ Hat). simpl List.map. rewrite latest_self. f_equal.
      specialize (IH (old ++ [v])). rewrite length_app in IH. simpl in IH.
      rewrite Nat.add_1_r in IH. rewrite IH.
      rewrite (distinct_ext vs (List.map key (old ++ [v])) (key v :: List.map key old))
        by (intros k; rewrite map_app, in_app_iff; simpl; tauto).
      apply map_ext_in. intros w Hw. symmetry. apply latest_other.
      intros Hk. apply (distinct_not_seen _ _ _ Hw). left. exact Hk.
Qed.

End Upsert.

Section OverlayVolumes.



(** The case the specification spells out: volumes [a] and [b] laid over
    an existing volume [a]. *)
Example OverlayPodSpec_volumes_a_b :
  Util.UpsertListByKey [K8s.Volume.mk "a" "generated"]
                       [K8s.Volume.mk "a" "overlay"; K8s.Volume.mk "b" "overlay"] K8s.Volume.Name
  = [K8s.Volume.mk "a" "overlay"; K8s.Volume.mk "b" "overlay"].
Proof. reflexivity. Qed.

End OverlayVolumes.

(** ** The configuration tree *)

Section ConfigTree.

Lemma lookup1_assign_eq k v m : lookup1 k (assign k v m) = Some v.
Proof.
  induction m as [|[k' v'] m IH]; simpl.
  - rewrite String.eqb_refl. reflexivity.
  - destruct (String.eqb_spec k' k) as [->|Hne]; simpl.
    + rewrite String.eqb_refl. reflexivity.
    + destruct (String.eqb_spec k' k); [contradiction | exact IH].
Qed.

Lemma lookup1_assign_ne k k' v m : k <> k' -> lookup1 k' (assign k v m) = lookup1 k' m.
Proof.
  intros Hne. induction m as [|[k0 v0] m IH]; simpl.
  - destruct (String.eqb_spec k k'); [contradiction | reflexivity].
  - destruct (String.eqb_spec k0 k) as [->|H0]; simpl.
    + destruct (String.eqb_spec k k'); [contradiction | reflexivity].
    + rewrite IH. reflexivity.
Qed.

Lemma lookup1_app_some k m m' x : lookup1 k m = Some x -> lookup1 k (m ++ m') = Some x.
Proof.
  induction m as [|[k0 v0] m IH]; simpl; [discriminate|].
  destruct (String.eqb k0 k); [tauto | exact IH].
Qed.

Lemma get_leaf path v : path <> [] -> is_leaf v = true -> get path v = None.
Proof. destruct path; [congruence|]. destruct v; simpl; congruence. Qed.

Lemma Get_nil_table path : path <> [] -> Get path [] = None.
Proof. destruct path; [congruence | reflexivity]. Qed.

Lemma Set_cons k rest v c :
  rest <> [] -> Set_ (k :: rest) v c = assign k (VTable (Set_ rest v (subtable k c))) c.
Proof. destruct rest; [congruence | reflexivity]. Qed.

(** [Set] then read at the same path. *)
Lemma Get_Set_same path v :
  path <> [] -> forall c, Get path (Set_ path v c) = Some v.
Proof.
  induction path as [|k rest IH]; [congruence|]. intros _ c.
  destruct rest as [|k2 rest'].
  - unfold Get. simpl. rewrite lookup1_assign_eq. reflexivity.
  - unfold Get. cbn [Set_ get]. rewrite lookup1_assign_eq.
    apply (IH ltac:(discriminate)).
Qed.

(** [Set] leaves alone every path that leaves its own at some key. *)
Lemma Get_Set_apart pre a b p q v :
  a <> b ->
  forall c, Get (pre ++ a :: p) (Set_ (pre ++ b :: q) v c) = Get (pre ++ a :: p) c.
Proof.
  intros Hab. induction pre as [|k pre IH]; intros c.
  - unfold Get. simpl. destruct q; rewrite lookup1_assign_ne by congruence; reflexivity.
  - rewrite <- !app_comm_cons, Set_cons by (destruct pre; discriminate).
    unfold Get. cbn [get]. rewrite lookup1_assign_eq.
    fold (Get (pre ++ a :: p) (Set_ (pre ++ b :: q) v (subtable k c))).
    rewrite IH. unfold subtable, Get.
    assert (Hne : pre ++ a :: p <> []) by (destruct pre; discriminate).
    destruct (lookup1 k c) as [x|]; [|exact (Get_nil_table _ Hne)].
    destruct x; try reflexivity;
      (etransitivity;
       [exact (Get_nil_table _ Hne) | symmetry; apply get_leaf; [exact Hne | reflexivity]]).
Qed.

Lemma merge_value_tables r o : merge_value (VTable r) (VTable o) = VTable (Merge r o).
Proof.
  unfold Merge. cbn [merge_value]. f_equal. revert r.
  induction o as [|[k v] o IH]; intros r; [reflexivity|].
  cbn [fold_left]. rewrite <- IH. reflexivity.
Qed.

Lemma merge_value_leaf recv inc : is_leaf recv = true -> merge_value recv inc = recv.
Proof. destruct recv, inc; simpl; congruence. Qed.

(** [Merge] keeps the receiver's leaves: receiver wins. *)
Lemma get_merge_leaf path v :
  is_leaf v = true ->
  forall recv inc, get path recv = Some v -> get path (merge_value recv inc) = Some v.
Proof.
  intros Hleaf. induction path as [|k rest IH]; intros recv inc Hget.
  - simpl in Hget. injection Hget as ->. rewrite merge_value_leaf by exact Hleaf.
    reflexivity.
  - destruct recv as [| | | |r]; simpl in Hget; try discriminate.
    destruct inc as [| | | |o]; try exact Hget.
    rewrite merge_value_tables. cbn [get].
    destruct (lookup1 k r) as [x|] eqn:Hx; [|discriminate].
    assert (Hkeep : exists x', lookup1 k (Merge r o) = Some x' /\ get rest x' = Some v).
    { unfold Merge. clear Hleaf. revert r x Hx Hget.
      induction o as [|[k' v'] o IHo]; intros r x Hx Hget; simpl.
      - exists x. split; assumption.
      - unfold merge_entry at 2. simpl.
        destruct (lookup1 k' r) as [rv|] eqn:Hrv.
        + destruct (String.eqb_spec k' k) as [->|Hne].
          * apply (IHo _ (merge_value x v')).
            -- rewrite Hx in Hrv. injection Hrv as <-. apply lookup1_assign_eq.
            -- apply IH. exact Hget.
          * apply (IHo _ x); [|exact Hget].
            rewrite lookup1_assign_ne by exact Hne. exact Hx.
        + apply (IHo _ x); [|exact Hget]. apply lookup1_app_some. exact Hx. }
    destruct Hkeep as [x' [-> Hx']]. exact Hx'.
Qed.

Lemma Get_Merge_leaf path v c mp :
  is_leaf v = true -> Get path c = Some v -> Get path (Merge c mp) = Some v.
Proof.
  intros Hleaf Hget. unfold Get. rewrite <- merge_value_tables.
  apply get_merge_leaf; assumption.
Qed.

(** The receiver wins on a conflicting leaf: base [x = 1] merged with
    [x = 2] keeps [x = 1]. *)
Example Merge_receiver_wins :
  Merge [("x", VInt 1)] [("x", VInt 2); ("y", VInt 3)] = [("x", VInt 1); ("y", VInt 3)].
Proof. reflexivity. Qed.

(** *** Reading two documents side by side *)

Lemma lookup1_app k m m' :
  lookup1 k (m ++ m')
  = match lookup1 k m with Some x => Some x | None => lookup1 k m' end.
Proof.
  induction m as [|[k0 v0] m IH]; simpl; [reflexivity|].
  destruct (String.eqb k0 k); [reflexivity | exact IH].
Qed.

(** What a receiver holds under [k] after [Merge] or [Set] is decided by
    what it held under [k] before. *)
Lemma lookup1_merge_entry k r1 r2 kv :
  lookup1 k r1 = lookup1 k r2 ->
  lookup1 k (merge_entry r1 kv) = lookup1 k (merge_entry r2 kv).
Proof.
  intros H. destruct kv as [k' v']. unfold merge_entry. simpl.
  destruct (String.eqb_spec k' k) as [->|Hne].
  - rewrite <- H. destruct (lookup1 k r1) as [x|] eqn:Hx.
    + rewrite !lookup1_assign_eq. reflexivity.
    + rewrite !lookup1_app, Hx, <- H. reflexivity.
  - assert (Hkeep : forall r, lookup1 k match lookup1 k' r with
                                         | Some rv => assign k' (merge_value rv v') r
                                         | None => r ++ [(k', v')]
                                         end = lookup1 k r).
    { intros r. destruct (lookup1 k' r).
      - apply lookup1_assign_ne. exact Hne.
      - rewrite lookup1_app. simpl.
        destruct (String.eqb_spec k' k); [contradiction|].
        destruct (lookup1 k r); reflexivity. }
    rewrite !Hkeep. exact H.
Qed.

Lemma lookup1_Merge k o :
  forall r1 r2, lookup1 k r1 = lookup1 k r2 ->
                lookup1 k (Merge r1 o) = lookup1 k (Merge r2 o).
Proof.
  unfold Merge. induction o as [|kv o IH]; intros r1 r2 H; simpl; [exact H|].
  apply IH, lookup1_merge_entry, H.
Qed.

Lemma lookup1_Set k path v r1 r2 :
  lookup1 k r1 = lookup1 k r2 ->
  lookup1 k (Set_ path v r1) = lookup1 k (Set_ path v r2).
Proof.
  intros H. destruct path as [|h rest]; [exact H|].
  destruct (String.eqb_spec h k) as [->|Hne].
  - destruct rest; simpl; rewrite !lookup1_assign_eq; [reflexivity|].
    unfold subtable. rewrite H. reflexivity.
  - destruct rest; simpl; rewrite !lookup1_assign_ne by exact Hne; exact H.
Qed.

Lemma Get_lookup1 k rest r1 r2 :
  lookup1 k r1 = lookup1 k r2 -> Get (k :: rest) r1 = Get (k :: rest) r2.
Proof. intros H. unfold Get. simpl. rewrite H. reflexivity. Qed.

Lemma agree_under_merge_entry k1 k2 r1 r2 kv :
  agree_under k1 k2 r1 r2 -> agree_under k1 k2 (merge_entry r1 kv) (merge_entry r2 kv).
Proof.
  intros (T1 & T2 & H1 & H2 & H). destruct kv as [k v]. unfold merge_entry. simpl.
  destruct (String.eqb_spec k k1) as [->|Hne].
  - rewrite H1, H2. destruct v as [s|z|b|l|o];
      try solve [exists T1, T2; simpl; rewrite !lookup1_assign_eq; auto].
    rewrite !merge_value_tables. exists (Merge T1 o), (Merge T2 o).
    rewrite !lookup1_assign_eq. split; [reflexivity|]. split; [reflexivity|].
    apply lookup1_Merge. exact H.
  - exists T1, T2. split; [|split; [|exact H]].
    + destruct (lookup1 k r1);
        [rewrite lookup1_assign_ne by exact Hne; exact H1 | apply lookup1_app_some; exact H1].
    + destruct (lookup1 k r2);
        [rewrite lookup1_assign_ne by exact Hne; exact H2 | apply lookup1_app_some; exact H2].
Qed.

Lemma agree_under_Merge k1 k2 o :
  forall r1 r2, agree_under k1 k2 r1 r2 -> agree_under k1 k2 (Merge r1 o) (Merge r2 o).
Proof.
  unfold Merge. induction o as [|kv o IH]; intros r1 r2 H; simpl; [exact H|].
  apply IH, agree_under_merge_entry, H.
Qed.

Lemma agree_under_Set_other k1 k2 h rest v r1 r2 :
  h <> k1 -> agree_under k1 k2 r1 r2 ->
  agree_under k1 k2 (Set_ (h :: rest) v r1) (Set_ (h :: rest) v r2).
Proof.
  intros Hne (T1 & T2 & H1 & H2 & H). exists T1, T2.
  split; [|split; [|exact H]];
    destruct rest; simpl; rewrite lookup1_assign_ne by exact Hne; assumption.
Qed.

(** Two values set under [k1.k3] leave what is under [k1.k2] the same. *)
Lemma agree_under_Set k1 k2 k3 v v' c :
  k3 <> k2 -> agree_under k1 k2 (Set_ [k1; k3] v c) (Set_ [k1; k3] v' c).
Proof.
  intros Hne. simpl.
  exists (assign k3 v (subtable k1 c)), (assign k3 v' (subtable k1 c)).
  rewrite !lookup1_assign_eq. split; [reflexivity|]. split; [reflexivity|].
  rewrite !lookup1_assign_ne by exact Hne. reflexivity.
Qed.

Lemma agree_under_Get k1 k2 rest r1 r2 :
  agree_under k1 k2 r1 r2 -> Get (k1 :: k2 :: rest) r1 = Get (k1 :: k2 :: rest) r2.
Proof.
  intros (T1 & T2 & H1 & H2 & H). unfold Get. simpl. rewrite H1, H2, H. reflexivity.
Qed.

End ConfigTree.

Lemma Get_Set_other_head a b p q v c :
  a <> b -> Get (a :: p) (Set_ (b :: q) v c) = Get (a :: p) c.
Proof. intros H. exact (Get_Set_apart [] a b p q v H c). Qed.

Lemma Get_Set_other_second k a b p q v c :
  a <> b -> Get (k :: a :: p) (Set_ (k :: b :: q) v c) = Get (k :: a :: p) c.
Proof. intros H. exact (Get_Set_apart [k] a b p q v H c). Qed.

(** ** The configuration document of a DN set *)

Section DNConfig.
Context (env : Env.t).

(** The values computed by the reconciler are in the tree whatever the
    user configuration and the file-service settings hold. *)
Lemma dnConfig_computed (dn : DNSet.t) (ls : LogSet.t) :
  Get ["hakeeper-client"; "service-addresses"] (dnConfig env dn ls)
  = Some (VStrings (Env.HaKeeperAdds env ls)) /\
  Get ["service-type"] (dnConfig env dn ls) = Some (VString serviceType) /\
  Get ["dn"; "listen-address"] (dnConfig env dn ls)
  = Some (VString (Env.getListenAddress env)) /\
  Get ["dn"; "lockservice"; "listen-address"] (dnConfig env dn ls)
  = Some (VString ("0.0.0.0:" +:+ pretty (Env.LockServicePort env))).
Proof.
  unfold dnConfig. cbv zeta.
  repeat split.
  - rewrite !Get_Set_other_head by discriminate.
    apply Get_Merge_leaf; [reflexivity|]. apply Get_Set_same. discriminate.
  - rewrite !Get_Set_other_head by discriminate. apply Get_Set_same. discriminate.
  - rewrite Get_Set_other_second by discriminate. apply Get_Set_same. discriminate.
  - apply Get_Set_same. discriminate.
Qed.

(** The log set reaches the document through
    [hakeeper-client.service-addresses] alone: everywhere else the
    document is the same for two log sets with the same shared storage,
    whatever their status holds and whatever [logset.HaKeeperAdds],
    [common.FileServiceConfig] and the other neighbours compute. *)
Lemma dnConfig_outside_service_addresses (dn : DNSet.t) (ls ls' : LogSet.t)
      (path : list string) :
  outside_service_addresses path = true ->
  LogSetSpec.SharedStorage (LogSet.Spec ls') = LogSetSpec.SharedStorage (LogSet.Spec ls) ->
  Get path (dnConfig env dn ls') = Get path (dnConfig env dn ls).
Proof.
  intros Hp Hs. unfold dnConfig. cbv zeta. rewrite Hs.
  destruct path as [|k rest]; [discriminate|]. simpl in Hp.
  destruct (String.eqb_spec k "hakeeper-client") as [->|Hk].
  - destruct rest as [|k2 rest]; [discriminate|].
    apply negb_true_iff, String.eqb_neq in Hp.
    apply agree_under_Get.
    do 3 (apply agree_under_Set_other; [discriminate|]).
    apply agree_under_Merge, agree_under_Set. congruence.
  - apply Get_lookup1. do 3 apply lookup1_Set. apply lookup1_Merge.
    simpl. rewrite !lookup1_assign_ne by congruence. reflexivity.
Qed.

(** C2 as the code has it: once the log set has published a discovery
    address (and the tree renders and the start script expands),
    [buildDNSetConfigMap] returns a config map whose configuration file is
    the rendering of a document that holds the list
    [logset.HaKeeperAdds(ls)] under [hakeeper-client.service-addresses].
    The published address is only tested for presence.  Outside
    [hakeeper-client.service-addresses] the document is the same for every
    log set with the same shared storage, so what it holds under
    [hakeeper-client.discovery-address] does not follow the published
    address; and two log sets that have published an address, with the
    same shared storage and the same [HaKeeperAdds], give the same
    result. *)
Theorem buildDNSetConfigMap_service_addresses (dn : DNSet.t) (ls : LogSet.t)
        (addr s script : string) :
  LogSetStatus.Discovery (LogSet.Status ls) = Some addr ->
  Env.ToString env (dnConfig env dn ls) = Go.Ok s ->
  Env.Execute env (model.mk (Env.dnServicePort env)
                            (join_path (Env.ConfigPath env) (Env.ConfigFile env))
                            (Env.LockServicePort env)) = Go.Ok script ->
  Env.ConfigFile env <> Env.Entrypoint env ->
  (exists cm, buildDNSetConfigMap env dn (Some ls) = Go.Ok cm /\
              ConfigMap.Data cm !! Env.ConfigFile env = Some s) /\
  Get ["hakeeper-client"; "service-addresses"] (dnConfig env dn ls)
  = Some (VStrings (Env.HaKeeperAdds env ls)) /\
  (forall ls' path,
      outside_service_addresses path = true ->
      LogSetSpec.SharedStorage (LogSet.Spec ls')
      = LogSetSpec.SharedStorage (LogSet.Spec ls) ->
      Get path (dnConfig env dn ls') = Get path (dnConfig env dn ls)) /\
  (forall ls' addr',
      LogSetStatus.Discovery (LogSet.Status ls') = Some addr' ->
      LogSetSpec.SharedStorage (LogSet.Spec ls')
      = LogSetSpec.SharedStorage (LogSet.Spec ls) ->
      Env.HaKeeperAdds env ls' = Env.HaKeeperAdds env ls ->
      buildDNSetConfigMap env dn (Some ls') = buildDNSetConfigMap env dn (Some ls)).
Proof.
  intros Hdisc Hs Hscript Hne. split; [|split; [apply dnConfig_computed | split]].
  - unfold buildDNSetConfigMap. simpl. rewrite Hdisc, Hs. simpl. rewrite Hscript. simpl.
    eexists. split; [reflexivity|]. simpl.
    rewrite lookup_insert_ne by congruence. apply lookup_singleton_eq.
  - intros ls' path Hp Hst. apply dnConfig_outside_service_addresses; assumption.
  - intros ls' addr' Hdisc' Hst Hadds.
    unfold buildDNSetConfigMap. simpl. rewrite Hdisc, Hdisc'.
    unfold dnConfig. rewrite Hst, Hadds. reflexivity.
Qed.

End DNConfig.

Lemma buildDNSetConfigMap_service_addresses_witness :
  Get ["hakeeper-client"; "service-addresses"]
      (dnConfig Sample.env (Sample.dnset None) Sample.logset_ready)
  = Some (VStrings ["mo-log-0.default.svc:32001"; "mo-log-1.default.svc:32001";
                    "mo-log-2.default.svc:32001"]).
Proof.
  refine (proj1 (proj2
            (buildDNSetConfigMap_service_addresses Sample.env (Sample.dnset None)
               Sample.logset_ready Sample.discovery_address
               (Sample.render "" (VTable (dnConfig Sample.env (Sample.dnset None)
                                                    Sample.logset_ready)))
               "exec /mo-service -cfg /etc/matrixone/config/config.toml" _ _ _ _))).
  - reflexivity.
  - reflexivity.
  - vm_compute. reflexivity.
  - vm_compute. discriminate.
Defined.

(** C2 as stated fails.  Two log sets differ only in the discovery
    address they have published.  Whatever the neighbours of the package
    compute and whatever the DN set is, the document holds the same under
    [hakeeper-client.discovery-address] for both, so it does not hold
    there the address of each. *)
Lemma buildDNSetConfigMap_discovery_address_unread :
  LogSetStatus.Discovery (LogSet.Status (Sample.logset (Some "log-a.default.svc:32001")))
  = Some "log-a.default.svc:32001" /\
  LogSetStatus.Discovery (LogSet.Status (Sample.logset (Some "log-b.default.svc:32001")))
  = Some "log-b.default.svc:32001" /\
  forall (env : Env.t) (dn : DNSet.t),
    Get discovery_address_path
        (dnConfig env dn (Sample.logset (Some "log-a.default.svc:32001")))
    = Get discovery_address_path
          (dnConfig env dn (Sample.logset (Some "log-b.default.svc:32001"))) /\
    ~ (Get discovery_address_path
           (dnConfig env dn (Sample.logset (Some "log-a.default.svc:32001")))
       = Some (VString "log-a.default.svc:32001") /\
       Get discovery_address_path
           (dnConfig env dn (Sample.logset (Some "log-b.default.svc:32001")))
       = Some (VString "log-b.default.svc:32001")).
Proof.
  split; [reflexivity|]. split; [reflexivity|]. intros env dn.
  assert (Hsame : Get discovery_address_path
                      (dnConfig env dn (Sample.logset (Some "log-a.default.svc:32001")))
                  = Get discovery_address_path
                        (dnConfig env dn (Sample.logset (Some "log-b.default.svc:32001")))).
  { apply dnConfig_outside_service_addresses; reflexivity. }
  split; [exact Hsame|]. intros [Ha Hb]. rewrite Hsame, Hb in Ha. discriminate.
Qed.

(** ** Cache-size defaults *)

Section CacheDefaults.
Import Webhook.


End CacheDefaults.

(* ===================================================================== *)
(** * Further properties of the helpers                                    *)
(* ===================================================================== *)

Import Helpers DnsetResources.

(** ** Pod metadata *)

Section PodMeta.

Lemma copy_into_ok src m : copy_into src (Some m) = Go.Ok (Some (src ∪ m)).
Proof. reflexivity. Qed.

Lemma copy_into_panic src dst :
  copy_into src dst = Go.Panic <-> src <> ∅ /\ dst = None.
Proof.
  unfold copy_into. destruct dst as [m|].
  - split; [discriminate | intros [_ H]; discriminate].
  - destruct (bool_decide_reflect (src = ∅)) as [->|Hne].
    + split; [discriminate | intros [H _]; contradiction].
    + split; [intros _; split; [exact Hne | reflexivity] | reflexivity].
Qed.

(** X1: on pod metadata whose label and annotation maps exist,
    [OverlayPodMeta] returns normally; a key of the overlay takes the
    overlay's value, every other key keeps its own, for labels and for
    annotations alike; name and namespace stay. *)
Theorem OverlayPodMeta_overlay_wins (o : Overlay.t) (meta : ObjectMeta.t)
        (labels annotations : gmap string string) :
  ObjectMeta.Labels meta = Some labels ->
  ObjectMeta.Annotations meta = Some annotations ->
  exists labels' annotations',
    OverlayPodMeta (Some o) meta
    = Go.Ok (ObjectMeta.mk (ObjectMeta.Name meta) (ObjectMeta.Namespace meta)
                           (Some labels') (Some annotations')) /\
    (forall k, labels' !! k
               = match default ∅ (Overlay.PodLabels o) !! k with
                 | Some v => Some v
                 | None => labels !! k
                 end) /\
    (forall k, annotations' !! k
               = match default ∅ (Overlay.PodAnnotations o) !! k with
                 | Some v => Some v
                 | None => annotations !! k
                 end).
Proof.
  intros Hl Ha.
  exists (default ∅ (Overlay.PodLabels o) ∪ labels),
         (default ∅ (Overlay.PodAnnotations o) ∪ annotations).
  split.
  - unfold OverlayPodMeta. rewrite Hl, Ha.
    destruct (Overlay.PodLabels o) as [ls|], (Overlay.PodAnnotations o) as [an|];
      simpl; rewrite ?(left_id_L ∅ (∪)); reflexivity.
  - split; intros k; rewrite lookup_union;
      destruct (_ !! k) as [v|]; destruct (_ !! k); reflexivity.
Qed.

Lemma OverlayPodMeta_overlay_wins_witness :
  exists labels' annotations',
    OverlayPodMeta
      (Some (Overlay.mk Sample.empty_main_overlay None [] None None "" None None None None
                        "" None None None None None
                        (Some {[ "app" := "patched" ]}) None))
      (ObjectMeta.mk "pod" "default" (Some {[ "app" := "mo"; "tier" := "dn" ]}) (Some ∅))
    = Go.Ok (ObjectMeta.mk "pod" "default" (Some labels') (Some annotations')) /\
    labels' !! "app" = Some "patched" /\ labels' !! "tier" = Some "dn".
Proof.
  destruct (OverlayPodMeta_overlay_wins
              (Overlay.mk Sample.empty_main_overlay None [] None None "" None None None None
                          "" None None None None None
                          (Some {[ "app" := "patched" ]}) None)
              (ObjectMeta.mk "pod" "default" (Some {[ "app" := "mo"; "tier" := "dn" ]})
                             (Some ∅))
              {[ "app" := "mo"; "tier" := "dn" ]} ∅ eq_refl eq_refl)
    as [labels' [annotations' [Hok [Hl _]]]].
  exists labels', annotations'. split; [exact Hok|].
  split; rewrite Hl; reflexivity.
Defined.

(** X2: [OverlayPodMeta] panics exactly when the overlay brings at least
    one label while the pod metadata has no label map, or at least one
    annotation while it has no annotation map; an overlay map that is
    empty never trips on a nil map. *)
Theorem OverlayPodMeta_panics_iff (o : Overlay.t) (meta : ObjectMeta.t) :
  OverlayPodMeta (Some o) meta = Go.Panic <->
  (default ∅ (Overlay.PodLabels o) <> ∅ /\ ObjectMeta.Labels meta = None) \/
  (default ∅ (Overlay.PodAnnotations o) <> ∅ /\ ObjectMeta.Annotations meta = None).
Proof.
  unfold OverlayPodMeta.
  destruct (Overlay.PodLabels o) as [ls|] eqn:Els; simpl.
  - destruct (copy_into ls (ObjectMeta.Labels meta)) as [l'| |] eqn:Ecl.
    + assert (Hl : ~ (ls <> ∅ /\ ObjectMeta.Labels meta = None)).
      { intros H. apply copy_into_panic in H. congruence. }
      simpl. destruct (Overlay.PodAnnotations o) as [an|] eqn:Ean; simpl.
      * destruct (copy_into an (ObjectMeta.Annotations meta)) as [a'| |] eqn:Eca; simpl.
        -- split; [discriminate|]. intros [H|H]; [tauto|].
           apply copy_into_panic in H. congruence.
        -- unfold copy_into in Eca.
           destruct (ObjectMeta.Annotations meta); [discriminate|].
           destruct (bool_decide _); discriminate.
        -- split; [|reflexivity]. intros _. right. apply copy_into_panic. exact Eca.
      * split; [discriminate|]. intros [H|[H _]]; [tauto | contradiction].
    + unfold copy_into in Ecl. destruct (ObjectMeta.Labels meta); [discriminate|].
      destruct (bool_decide _); discriminate.
    + simpl. split; [|reflexivity]. intros _. left. apply copy_into_panic. exact Ecl.
  - destruct (Overlay.PodAnnotations o) as [an|] eqn:Ean; simpl.
    + destruct (copy_into an (ObjectMeta.Annotations meta)) as [a'| |] eqn:Eca; simpl.
      * split; [discriminate|]. intros [[H _]|H]; [contradiction|].
        apply copy_into_panic in H. congruence.
      * unfold copy_into in Eca.
        destruct (ObjectMeta.Annotations meta); [discriminate|].
        destruct (bool_decide _); discriminate.
      * split; [|reflexivity]. intros _. right. apply copy_into_panic. exact Eca.
    + split; [discriminate|]. intros [[H _]|[H _]]; contradiction.
Qed.

End PodMeta.

(** ** Sidecars and repeated application of the overlay *)

Section OverlayAgain.

Lemma findMainContainer_name containers c :
  findMainContainer containers = Some c -> Container.Name c = ContainerMain /\ In c containers.
Proof.
  unfold findMainContainer. intros H. apply find_some in H. destruct H as [Hin Hn].
  split; [apply String.eqb_eq; exact Hn | exact Hin].
Qed.

(** X3: a sidecar overlay replaces every container but the generated
    main one: the first container named [main] stays, in first position,
    followed by the sidecars and by nothing else; when there is no such
    container the sidecars are all there is. *)
Theorem OverlayPodSpec_sidecars_keep_main (o : Overlay.t) (pod : PodSpec.t)
        (sidecars : list Container.t) :
  Overlay.SidecarContainers o = Some sidecars ->
  (forall main,
      findMainContainer (PodSpec.Containers pod) = Some main ->
      PodSpec.Containers (OverlayPodSpec (Some o) pod) = main :: sidecars /\
      findMainContainer (PodSpec.Containers (OverlayPodSpec (Some o) pod)) = Some main) /\
  (findMainContainer (PodSpec.Containers pod) = None ->
   PodSpec.Containers (OverlayPodSpec (Some o) pod) = sidecars).
Proof.
  intros Hs. unfold OverlayPodSpec. simpl. rewrite Hs. split.
  - intros main Hm. rewrite Hm. split; [reflexivity|].
    apply findMainContainer_name in Hm. destruct Hm as [Hn _].
    unfold findMainContainer. simpl. rewrite Hn, String.eqb_refl. reflexivity.
  - intros Hm. rewrite Hm. reflexivity.
Qed.

Lemma OverlayPodSpec_sidecars_keep_main_witness :
  PodSpec.Containers
    (OverlayPodSpec
       (Some (Overlay.mk Sample.empty_main_overlay None [] None
                (Some [Container.mk "agent" "agent:1" [] [] [] [] "" [] None None None ""])
                "" None None None None "" None None None None None None None))
       (PodSpec.mk [] []
          [Container.mk "old-sidecar" "x:1" [] [] [] [] "" [] None None None "";
           Container.mk "main" "mo:1" [] [] [] [] "" [] None None None ""]
          None None "" None [] None [] [] "" None [] None []))
  = [Container.mk "main" "mo:1" [] [] [] [] "" [] None None None "";
     Container.mk "agent" "agent:1" [] [] [] [] "" [] None None None ""].
Proof.
  apply (OverlayPodSpec_sidecars_keep_main
           (Overlay.mk Sample.empty_main_overlay None [] None
              (Some [Container.mk "agent" "agent:1" [] [] [] [] "" [] None None None ""])
              "" None None None None "" None None None None None None None)
           (PodSpec.mk [] []
              [Container.mk "old-sidecar" "x:1" [] [] [] [] "" [] None None None "";
               Container.mk "main" "mo:1" [] [] [] [] "" [] None None None ""]
              None None "" None [] None [] [] "" None [] None [])
           [Container.mk "agent" "agent:1" [] [] [] [] "" [] None None None ""]);
    reflexivity.
Defined.

Section UpsertAgain.
Context {E : Type} (key : E -> string).

Lemma find_UpsertByKey k l v :
  List.find (fun x => String.eqb (key x) k) (Util.UpsertByKey key l v)
  = if String.eqb (key v) k then Some v
    else List.find (fun x => String.eqb (key x) k) l.
Proof.
  induction l as [|x rest IH]; simpl.
  - destruct (String.eqb (key v) k); reflexivity.
  - destruct (String.eqb_spec (key x) (key v)) as [Hxv|Hxv]; simpl.
    + rewrite Hxv. destruct (String.eqb (key v) k); reflexivity.
    + rewrite IH. destruct (String.eqb_spec (key x) k) as [Hxk|Hxk]; [|reflexivity].
      destruct (String.eqb_spec (key v) k); [congruence | reflexivity].
Qed.

Lemma UpsertByKey_fixed l v :
  List.find (fun x => String.eqb (key x) (key v)) l = Some v ->
  Util.UpsertByKey key l v = l.
Proof.
  induction l as [|x rest IH]; simpl; [discriminate|].
  destruct (String.eqb (key x) (key v)).
  - intros H. injection H as ->. reflexivity.
  - intros H. rewrite IH by exact H. reflexivity.
Qed.

Lemma find_fold_other k new :
  (forall w, In w new -> key w <> k) ->
  forall l, List.find (fun x => String.eqb (key x) k) (fold_left (Util.UpsertByKey key) new l)
            = List.find (fun x => String.eqb (key x) k) l.
Proof.
  induction new as [|w ws IH]; intros Hk l; simpl; [reflexivity|].
  rewrite IH by (intros w' Hw'; apply Hk; right; exact Hw').
  rewrite find_UpsertByKey.
  destruct (String.eqb_spec (key w) k) as [Hwk|]; [|reflexivity].
  exfalso. apply (Hk w); [left; reflexivity | exact Hwk].
Qed.

Lemma find_fold_new new :
  List.NoDup (List.map key new) ->
  forall l v, In v new ->
    List.find (fun x => String.eqb (key x) (key v)) (fold_left (Util.UpsertByKey key) new l)
    = Some v.
Proof.
  induction new as [|w ws IH]; intros Hnd l v Hin; simpl; [destruct Hin|].
  inversion Hnd as [|? ? Hw Hws]; subst.
  destruct Hin as [->|Hin].
  - rewrite find_fold_other.
    + rewrite find_UpsertByKey, String.eqb_refl. reflexivity.
    + intros w' Hw' Heq. apply Hw. rewrite <- Heq. apply in_map. exact Hw'.
  - apply IH; assumption.
Qed.

(** Upserting the same entries a second time changes nothing. *)
Lemma UpsertListByKey_again old new :
  List.NoDup (List.map key new) ->
  Util.UpsertListByKey (Util.UpsertListByKey old new key) new key
  = Util.UpsertListByKey old new key.
Proof.
  intros Hnd. unfold Util.UpsertListByKey.
  set (r := fold_left (Util.UpsertByKey key) new old).
  assert (Hr : forall v, In v new ->
                 List.find (fun x => String.eqb (key x) (key v)) r = Some v).
  { intros v Hv. apply find_fold_new; assumption. }
  clearbody r. clear Hnd.
  induction new as [|w ws IH]; simpl; [reflexivity|].
  rewrite UpsertByKey_fixed by (apply Hr; left; reflexivity).
  apply IH. intros v Hv. apply Hr. right. exact Hv.
Qed.

End UpsertAgain.

Lemma set_ptr_again {A} (o old : option A) : set_ptr o (set_ptr o old) = set_ptr o old.
Proof. destruct o; reflexivity. Qed.

Lemma set_slice_again {A} (o : option (list A)) old :
  set_slice o (set_slice o old) = set_slice o old.
Proof. destruct o; reflexivity. Qed.

Lemma set_string_again o old : set_string o (set_string o old) = set_string o old.
Proof. unfold set_string. destruct (String.eqb o ""); reflexivity. Qed.

(** X4: applying an overlay to a pod spec a second time changes nothing,
    provided the overlay volumes have distinct names and no sidecar of the
    overlay is itself named [main]. *)
Theorem OverlayPodSpec_idempotent (o : Overlay.t) (pod : PodSpec.t) :
  List.NoDup (List.map K8s.Volume.Name (default [] (Overlay.Volumes o))) ->
  findMainContainer (default [] (Overlay.SidecarContainers o)) = None ->
  OverlayPodSpec (Some o) (OverlayPodSpec (Some o) pod) = OverlayPodSpec (Some o) pod.
Proof.
  intros Hvs Hsc. unfold OverlayPodSpec. simpl.
  rewrite !set_ptr_again, !set_slice_again, !set_string_again.
  f_equal.
  - destruct (Overlay.Volumes o) as [vs|]; [|reflexivity].
    apply UpsertListByKey_again. exact Hvs.
  - destruct (Overlay.SidecarContainers o) as [sidecars|]; [|reflexivity].
    simpl in Hsc.
    destruct (findMainContainer (PodSpec.Containers pod)) as [main|] eqn:Hm.
    + apply findMainContainer_name in Hm. destruct Hm as [Hn _].
      unfold findMainContainer at 1. simpl. rewrite Hn, String.eqb_refl. reflexivity.
    + rewrite Hsc. reflexivity.
Qed.

Lemma OverlayPodSpec_idempotent_witness :
  OverlayPodSpec
    (Some (Overlay.mk Sample.empty_main_overlay
             (Some [K8s.Volume.mk "a" "secret:a2"; K8s.Volume.mk "b" "secret:b"])
             [] None None "sa" None None None (Some ["t1"]) "" None None None None None
             None None))
    (OverlayPodSpec
       (Some (Overlay.mk Sample.empty_main_overlay
                (Some [K8s.Volume.mk "a" "secret:a2"; K8s.Volume.mk "b" "secret:b"])
                [] None None "sa" None None None (Some ["t1"]) "" None None None None None
                None None))
       (PodSpec.mk [K8s.Volume.mk "a" "secret:a1"] [] [] None None "" None [] None [] []
                   "" None [] None []))
  = OverlayPodSpec
      (Some (Overlay.mk Sample.empty_main_overlay
               (Some [K8s.Volume.mk "a" "secret:a2"; K8s.Volume.mk "b" "secret:b"])
               [] None None "sa" None None None (Some ["t1"]) "" None None None None None
               None None))
      (PodSpec.mk [K8s.Volume.mk "a" "secret:a1"] [] [] None None "" None [] None [] []
                  "" None [] None []).
Proof.
  apply OverlayPodSpec_idempotent.
  - simpl. repeat constructor; simpl; intuition discriminate.
  - reflexivity.
Defined.

(** Without the second condition the overlay is not idempotent: a sidecar
    named [main] laid over a pod without a main container is found by the
    second application and put in front once more. *)
Example OverlayPodSpec_sidecar_named_main :
  List.map Container.Name
    (PodSpec.Containers
       (OverlayPodSpec
          (Some (Overlay.mk Sample.empty_main_overlay None [] None
                   (Some [Container.mk "main" "x" [] [] [] [] "" [] None None None ""])
                   "" None None None None "" None None None None None None None))
          (OverlayPodSpec
             (Some (Overlay.mk Sample.empty_main_overlay None [] None
                      (Some [Container.mk "main" "x" [] [] [] [] "" [] None None None ""])
                      "" None None None None "" None None None None None None None))
             Sample.podspec)))
  = ["main"; "main"].
Proof. reflexivity. Qed.

End OverlayAgain.

(** ** The pod spec of a DN set *)

Section PodSpecOfDNSet.
Context (env : Env.t).

(** [syncPodSpec] is the generated spec with the overlay on top. *)
Lemma syncPodSpec_layers (dn : DNSet.t) (sts : StatefulSet.t) (sp : SharedStorageProvider.t) :
  syncPodSpec env dn sts sp
  = StatefulSet.mk (StatefulSet.Meta sts) (StatefulSet.Replicas sts)
                   (StatefulSet.TemplateMeta sts)
                   (OverlayPodSpec (DNSetSpec.Overlay (DNSet.Spec dn))
                                   (syncPodSpec_generated env dn sts sp))
                   (StatefulSet.VolumeClaimTemplates sts).
Proof. reflexivity. Qed.

(** X5: in [syncPodSpec] the overlay is applied after everything that is
    generated: whatever the storage and topology settings put into the pod
    spec, a topology-spread, init-container, toleration or affinity
    setting of the overlay is what the stateful set ends up with, and the
    node selector and readiness gates are the generated ones. *)
Theorem syncPodSpec_overlay_last (dn : DNSet.t) (sts : StatefulSet.t)
        (sp : SharedStorageProvider.t) (o : Overlay.t) :
  DNSetSpec.Overlay (DNSet.Spec dn) = Some o ->
  (forall l, Overlay.TopologySpreadConstraints o = Some l ->
             PodSpec.TopologySpreadConstraints
               (StatefulSet.TemplateSpec (syncPodSpec env dn sts sp)) = l) /\
  (forall l, Overlay.InitContainers o = Some l ->
             PodSpec.InitContainers
               (StatefulSet.TemplateSpec (syncPodSpec env dn sts sp)) = l) /\
  (forall l, Overlay.Tolerations o = Some l ->
             PodSpec.Tolerations
               (StatefulSet.TemplateSpec (syncPodSpec env dn sts sp)) = l) /\
  (forall a, Overlay.Affinity o = Some a ->
             PodSpec.Affinity
               (StatefulSet.TemplateSpec (syncPodSpec env dn sts sp)) = Some a) /\
  PodSpec.NodeSelector (StatefulSet.TemplateSpec (syncPodSpec env dn sts sp))
  = PodSpec.NodeSelector (syncPodSpec_generated env dn sts sp) /\
  PodSpec.ReadinessGates (StatefulSet.TemplateSpec (syncPodSpec env dn sts sp))
  = PodSpec.ReadinessGates (syncPodSpec_generated env dn sts sp).
Proof.
  intros Ho. rewrite syncPodSpec_layers, Ho. simpl.
  repeat split; intros x Hx; rewrite Hx; reflexivity.
Qed.

(** X6: whatever the overlay and whatever the stateful set held before,
    the main container built by [syncPodSpec] is named [main] and carries
    the image and the resources of the DN set: the overlay has no way to
    change any of the three. *)
Theorem syncPodSpec_main_identity (dn : DNSet.t) (sts : StatefulSet.t) :
  Container.Name (syncPodSpec_main env dn sts) = ContainerMain /\
  Container.Image (syncPodSpec_main env dn sts) = DNSetSpec.Image (DNSet.Spec dn) /\
  Container.Resources (syncPodSpec_main env dn sts) = DNSetSpec.Resources (DNSet.Spec dn).
Proof.
  unfold syncPodSpec_main. cbv zeta.
  assert (Hname : Container.Name
                    match Util.FindFirst (PodSpec.Containers (StatefulSet.TemplateSpec sts))
                            (fun c => String.eqb (Container.Name c) ContainerMain) with
                    | Some c => c
                    | None => Container.mk ContainerMain "" [] [] [] [] "" [] None None None ""
                    end = ContainerMain).
  { unfold Util.FindFirst.
    destruct (List.find _ _) as [c|] eqn:Hf; [|reflexivity].
    apply find_some in Hf. apply String.eqb_eq. apply Hf. }
  destruct (DNSetSpec.Overlay (DNSet.Spec dn)) as [o|]; simpl;
    (split; [exact Hname | split; reflexivity]).
Qed.

(** X7: when the overlay leaves command, environment and volume mounts
    alone, the main container runs the entrypoint script from the config
    path, mounts the config volume read-only and the data volume exactly
    when the DN set has a cache volume, and gets [HOSTNAME_UUID] after the
    three identity variables exactly when DNS-based identity is on. *)
Theorem syncPodSpec_main_generated (dn : DNSet.t) (sts : StatefulSet.t) :
  (forall o, DNSetSpec.Overlay (DNSet.Spec dn) = Some o ->
             MainContainerOverlay.Command (Overlay.MainContainerOverlay o) = None /\
             MainContainerOverlay.Env (Overlay.MainContainerOverlay o) = None /\
             MainContainerOverlay.VolumeMounts (Overlay.MainContainerOverlay o) = None) ->
  Container.Command (syncPodSpec_main env dn sts)
  = ["/bin/sh"; Env.ConfigPath env +:+ "/" +:+ Env.Entrypoint env] /\
  Container.VolumeMounts (syncPodSpec_main env dn sts)
  = VolumeMount.mk (Env.ConfigVolume env) true (Env.ConfigPath env)
      :: match DNSetSpec.CacheVolume (DNSet.Spec dn) with
         | Some _ => [VolumeMount.mk (Env.DataVolume env) false (Env.DataPath env)]
         | None => []
         end /\
  Container.Env (syncPodSpec_main env dn sts)
  = [Env.FieldRefEnv env (Env.PodNameEnvKey env) "metadata.name";
     Env.FieldRefEnv env (Env.NamespaceEnvKey env) "metadata.namespace";
     EnvVar.mk (Env.HeadlessSvcEnvKey env) (Env.headlessSvcName env dn) None]
      ++ (if DNSetSpec.DNSBasedIdentity (DNSet.Spec dn)
          then [EnvVar.mk "HOSTNAME_UUID" "y" None] else []).
Proof.
  intros Ho. unfold syncPodSpec_main. cbv zeta.
  destruct (DNSetSpec.Overlay (DNSet.Spec dn)) as [o|].
  - destruct (Ho o eq_refl) as [Hc [He Hm]].
    unfold OverlayMainContainer. simpl. rewrite Hc, He, Hm. simpl.
    repeat split.
    + destruct (DNSetSpec.CacheVolume (DNSet.Spec dn)); reflexivity.
    + destruct (DNSetSpec.DNSBasedIdentity (DNSet.Spec dn)); reflexivity.
  - simpl. repeat split.
    + destruct (DNSetSpec.CacheVolume (DNSet.Spec dn)); reflexivity.
    + destruct (DNSetSpec.DNSBasedIdentity (DNSet.Spec dn)); reflexivity.
Qed.

End PodSpecOfDNSet.

Lemma syncPodSpec_main_generated_witness :
  Container.VolumeMounts (syncPodSpec_main Sample.env (Sample.dnset None) Sample.sts)
  = [VolumeMount.mk "config" true "/etc/matrixone/config"].
Proof.
  apply (syncPodSpec_main_generated Sample.env (Sample.dnset None) Sample.sts).
  intros o Ho. discriminate Ho.
Defined.

Lemma syncPodSpec_overlay_last_witness :
  PodSpec.Tolerations
    (StatefulSet.TemplateSpec
       (syncPodSpec Sample.env
          (DNSet.mk (ObjectMeta.mk "mo" "default" None None)
             (DNSetSpec.mk 1 "matrixone:test" "" None ["zone"] None false
                (Some (Overlay.mk Sample.empty_main_overlay None [] None None "" None None
                         None (Some ["dedicated"]) "" None None None None None None None))
                None (SharedStorageCache.mk None None))
             (DNSetDeps.mk None))
          Sample.sts Sample.shared))
  = ["dedicated"].
Proof.
  apply (syncPodSpec_overlay_last Sample.env
           (DNSet.mk (ObjectMeta.mk "mo" "default" None None)
              (DNSetSpec.mk 1 "matrixone:test" "" None ["zone"] None false
                 (Some (Overlay.mk Sample.empty_main_overlay None [] None None "" None None
                          None (Some ["dedicated"]) "" None None None None None None None))
                 None (SharedStorageCache.mk None None))
              (DNSetDeps.mk None))
           Sample.sts Sample.shared
           (Overlay.mk Sample.empty_main_overlay None [] None None "" None None
              None (Some ["dedicated"]) "" None None None None None None None));
    reflexivity.
Defined.

(** ** Volume claim templates *)

Section VolumeClaims.
Context (env : Env.t) (PersistentVolumeClaimTemplate : Z -> option string -> string -> payload).

(** X8: [syncPersistentVolumeClaim] writes the claim templates only for
    a DN set with a cache volume; then the templates are the data claim,
    built from the size and storage class of the cache volume, followed by
    the volume claims of the overlay in their order, and whatever
    templates the stateful set had are gone.  Without a cache volume the
    stateful set is returned as it is, overlay claims included or not. *)
Theorem syncPersistentVolumeClaim_templates (dn : DNSet.t) (sts : StatefulSet.t) :
  (forall volume,
      DNSetSpec.CacheVolume (DNSet.Spec dn) = Some volume ->
      StatefulSet.VolumeClaimTemplates
        (syncPersistentVolumeClaim env PersistentVolumeClaimTemplate dn sts)
      = PersistentVolumeClaimTemplate (Volume.Size volume) (Volume.StorageClassName volume)
                                      (Env.DataVolume env)
          :: match DNSetSpec.Overlay (DNSet.Spec dn) with
             | Some o => Overlay.VolumeClaims o
             | None => []
             end) /\
  (DNSetSpec.CacheVolume (DNSet.Spec dn) = None ->
   syncPersistentVolumeClaim env PersistentVolumeClaimTemplate dn sts = sts) /\
  StatefulSet.TemplateSpec (syncPersistentVolumeClaim env PersistentVolumeClaimTemplate dn sts)
  = StatefulSet.TemplateSpec sts.
Proof.
  unfold syncPersistentVolumeClaim. split; [|split].
  - intros volume Hv. rewrite Hv. simpl.
    destruct (DNSetSpec.Overlay (DNSet.Spec dn)); reflexivity.
  - intros Hv. rewrite Hv. reflexivity.
  - destruct (DNSetSpec.CacheVolume (DNSet.Spec dn)); reflexivity.
Qed.

End VolumeClaims.

(** ** Default service arguments *)

Section DefaultServiceArgs.

(** X9: [setDefaultServiceArgs] never replaces arguments the user has
    set: on a log, DN or CN spec with at least one service argument it
    returns the spec unchanged and logs nothing, whatever the cache of
    defaults holds. *)
Theorem setDefaultServiceArgs_keeps_user_args (cache : option DefaultArgs.t)
        (args : list string) :
  args <> [] ->
  setDefaultServiceArgs cache (LogSetBasic (Some args)) = Go.Ok (LogSetBasic (Some args), []) /\
  setDefaultServiceArgs cache (DNSetBasic (Some args)) = Go.Ok (DNSetBasic (Some args), []) /\
  setDefaultServiceArgs cache (CNSetBasic (Some args)) = Go.Ok (CNSetBasic (Some args), []).
Proof.
  intros Hne. destruct args as [|a rest]; [congruence|].
  destruct cache as [defaults|]; repeat split; reflexivity.
Qed.

Lemma setDefaultServiceArgs_keeps_user_args_witness :
  setDefaultServiceArgs (Some (DefaultArgs.mk ["-debug-http=:6060"] [] []))
                        (LogSetBasic (Some ["-v"]))
  = Go.Ok (LogSetBasic (Some ["-v"]), []).
Proof.
  apply (setDefaultServiceArgs_keeps_user_args
           (Some (DefaultArgs.mk ["-debug-http=:6060"] [] [])) ["-v"]).
  discriminate.
Defined.

Lemma default_args_again defaults p p' :
  default_args defaults p = Go.Ok p' -> default_args defaults p' = Go.Ok p'.
Proof.
  destruct p as [args|]; simpl; [|discriminate]. intros H. injection H as <-. simpl.
  destruct args as [|a rest]; simpl; [|reflexivity].
  destruct defaults; reflexivity.
Qed.

(** X10: defaulting is idempotent: the object returned by a call that
    did not panic is returned unchanged by a second call. *)
Theorem setDefaultServiceArgs_idempotent (cache : option DefaultArgs.t)
        (obj obj' : object) (log : list string) :
  setDefaultServiceArgs cache obj = Go.Ok (obj', log) ->
  setDefaultServiceArgs cache obj' = Go.Ok (obj', log).
Proof.
  unfold setDefaultServiceArgs. destruct cache as [defaults|].
  - destruct obj as [p|p|p|n]; simpl.
    + destruct (default_args _ p) as [p'| |] eqn:E; simpl; try discriminate.
      intros H. injection H as <- <-. simpl. rewrite (default_args_again _ _ _ E). reflexivity.
    + destruct (default_args _ p) as [p'| |] eqn:E; simpl; try discriminate.
      intros H. injection H as <- <-. simpl. rewrite (default_args_again _ _ _ E). reflexivity.
    + destruct (default_args _ p) as [p'| |] eqn:E; simpl; try discriminate.
      intros H. injection H as <- <-. simpl. rewrite (default_args_again _ _ _ E). reflexivity.
    + intros H. injection H as <- <-. reflexivity.
  - intros H. injection H as <- <-. reflexivity.
Qed.

Lemma setDefaultServiceArgs_idempotent_witness :
  setDefaultServiceArgs (Some (DefaultArgs.mk [] ["-debug-http=:6060"] []))
                        (DNSetBasic (Some ["-debug-http=:6060"]))
  = Go.Ok (DNSetBasic (Some ["-debug-http=:6060"]), []).
Proof.
  apply (setDefaultServiceArgs_idempotent
           (Some (DefaultArgs.mk [] ["-debug-http=:6060"] [])) (DNSetBasic (Some []))).
  reflexivity.
Defined.

(** X11: [setDefaultServiceArgs] panics exactly when defaults are loaded
    and it is handed a nil pointer to one of the three specs; with no
    defaults loaded it returns before looking at its argument, and a value
    of any other type is logged and left alone. *)
Theorem setDefaultServiceArgs_panics_iff (cache : option DefaultArgs.t) (obj : object) :
  (setDefaultServiceArgs cache obj = Go.Panic <->
   cache <> None /\ (obj = LogSetBasic None \/ obj = DNSetBasic None \/ obj = CNSetBasic None)) /\
  (cache = None -> setDefaultServiceArgs cache obj = Go.Ok (obj, [])) /\
  (forall defaults n,
      setDefaultServiceArgs (Some defaults) (Unknown n)
      = Go.Ok (Unknown n, ["unknown type:" +:+ n])).
Proof.
  split; [|split].
  - destruct cache as [defaults|]; simpl.
    + destruct obj as [[args|]|[args|]|[args|]|n]; simpl; split;
        first [ discriminate
              | reflexivity
              | intros [_ [H|[H|H]]]; discriminate H
              | intros _; split; [discriminate | tauto] ].
    + split; [discriminate | intros [H _]; congruence].
  - intros ->. reflexivity.
  - reflexivity.
Qed.

End DefaultServiceArgs.

(** ** Keys of the sets of a cluster *)

Section Keys.

Lemma append_same_length (s1 s2 : string) :
  String.length s1 = String.length s2 ->
  forall a b : string, a +:+ s1 = b +:+ s2 -> a = b /\ s1 = s2.
Proof.
  intros Hlen. induction a as [|c a IH]; intros [|c' b] H.
  - split; [reflexivity | exact H].
  - exfalso. apply (f_equal String.length) in H.
    rewrite !append_length in H. simpl in H. lia.
  - exfalso. apply (f_equal String.length) in H.
    rewrite !append_length in H. simpl in H. lia.
  - simpl in H. injection H as -> H. destruct (IH _ H) as [-> ->]. split; reflexivity.
Qed.

Lemma append_nonempty_ne (a s : string) : s <> "" -> a +:+ s <> a.
Proof.
  intros Hs H. apply (f_equal String.length) in H. rewrite append_length in H.
  destruct s; [congruence | simpl in H; lia].
Qed.

(** X12: the keys of the TP and AP compute sets never collide: within a
    cluster and across clusters a TP key is never an AP key, two clusters
    with one TP key (or one AP key) have the same name and namespace, and
    in a cluster the TP and AP keys both differ from the key shared by the
    log set, the DN set and the web UI. *)
Theorem compute_set_keys_apart (mo1 mo2 : MatrixOneCluster.t) :
  TPSetKey mo1 <> APSetKey mo2 /\
  (TPSetKey mo1 = TPSetKey mo2 ->
   ObjectMeta.Name (MatrixOneCluster.Meta mo1) = ObjectMeta.Name (MatrixOneCluster.Meta mo2) /\
   ObjectMeta.Namespace (MatrixOneCluster.Meta mo1)
   = ObjectMeta.Namespace (MatrixOneCluster.Meta mo2)) /\
  (APSetKey mo1 = APSetKey mo2 ->
   ObjectMeta.Name (MatrixOneCluster.Meta mo1) = ObjectMeta.Name (MatrixOneCluster.Meta mo2) /\
   ObjectMeta.Namespace (MatrixOneCluster.Meta mo1)
   = ObjectMeta.Namespace (MatrixOneCluster.Meta mo2)) /\
  TPSetKey mo1 <> DNSetKey mo1 /\ APSetKey mo1 <> DNSetKey mo1 /\
  LogSetKey mo1 = DNSetKey mo1 /\ WebUIKey mo1 = DNSetKey mo1.
Proof.
  unfold TPSetKey, APSetKey, DNSetKey, LogSetKey, WebUIKey, key.
  repeat split.
  - intros H. injection H as Hn _.
    apply (append_same_length "-tp" "-ap" eq_refl) in Hn. destruct Hn as [_ Hn].
    discriminate Hn.
  - injection H as Hn _. apply (append_same_length "-tp" "-tp" eq_refl) in Hn. tauto.
  - injection H as _ Hns. exact Hns.
  - injection H as Hn _. apply (append_same_length "-ap" "-ap" eq_refl) in Hn. tauto.
  - injection H as _ Hns. exact Hns.
  - intros H. injection H as Hn. revert Hn. apply append_nonempty_ne. discriminate.
  - intros H. injection H as Hn. revert Hn. apply append_nonempty_ne. discriminate.
Qed.

Lemma bind_mark_inj (ns1 : string) :
  forall ns2 n1 n2 : string,
    contains_char slash ns1 = false -> contains_char slash ns2 = false ->
    ns1 +:+ "/" +:+ n1 = ns2 +:+ "/" +:+ n2 -> ns1 = ns2 /\ n1 = n2.
Proof.
  induction ns1 as [|c ns1 IH]; intros [|c' ns2] n1 n2 H1 H2 H; simpl in *.
  - injection H as H. split; [reflexivity | exact H].
  - exfalso. injection H as Hc _. subst c'.
    unfold slash in H2. rewrite Ascii.eqb_refl in H2. discriminate.
  - exfalso. injection H as Hc _. subst c.
    unfold slash in H1. rewrite Ascii.eqb_refl in H1. discriminate.
  - injection H as -> H.
    destruct (Ascii.eqb c' slash); try discriminate.
    destruct (IH _ _ _ H1 H2 H) as [-> ->]. split; reflexivity.
Qed.

(** X13: the mark that binds a bucket to a log set, [namespace/name],
    tells log sets apart as long as namespaces hold no slash (as the
    cluster requires of a namespace): equal marks mean equal namespace and
    equal name. *)
Theorem BucketBindToMark_injective (m1 m2 : ObjectMeta.t) :
  contains_char slash (ObjectMeta.Namespace m1) = false ->
  contains_char slash (ObjectMeta.Namespace m2) = false ->
  BucketBindToMark m1 = BucketBindToMark m2 ->
  ObjectMeta.Namespace m1 = ObjectMeta.Namespace m2 /\
  ObjectMeta.Name m1 = ObjectMeta.Name m2.
Proof.
  unfold BucketBindToMark. intros H1 H2 H. exact (bind_mark_inj _ _ _ _ H1 H2 H).
Qed.

Lemma BucketBindToMark_injective_witness :
  ObjectMeta.Namespace (ObjectMeta.mk "mo" "default" None None)
  = ObjectMeta.Namespace (ObjectMeta.mk "mo" "default" (Some ∅) None) /\
  ObjectMeta.Name (ObjectMeta.mk "mo" "default" None None)
  = ObjectMeta.Name (ObjectMeta.mk "mo" "default" (Some ∅) None).
Proof.
  apply (BucketBindToMark_injective (ObjectMeta.mk "mo" "default" None None)
                                    (ObjectMeta.mk "mo" "default" (Some ∅) None));
    reflexivity.
Defined.

(** With a slash in the namespace two different log sets share a mark. *)
Example BucketBindToMark_slash :
  BucketBindToMark (ObjectMeta.mk "c" "a/b" None None)
  = BucketBindToMark (ObjectMeta.mk "b/c" "a" None None).
Proof. reflexivity. Qed.

End Keys.

(** ** What a result of [ClaimedBucket] tells *)

Section ClaimedBucketResults.

(** X14: reading the result of [ClaimedBucket] backwards: a returned
    claim is the one and only claim listed under the identity label, the
    pair (nil, nil) means the list came back empty, and an error of the
    list call comes back as it is, with no claim. *)
Theorem ClaimedBucket_result (c : Client.t) (p : S3Provider.t) :
  (forall bc, ClaimedBucket c p = Go.Ok (Some bc) ->
              Client.List c (identity_selector (UniqueBucketLabel p)) = Go.Ok [bc]) /\
  (ClaimedBucket c p = Go.Ok None ->
   Client.List c (identity_selector (UniqueBucketLabel p)) = Go.Ok []) /\
  (forall e, Client.List c (identity_selector (UniqueBucketLabel p)) = Go.Err e ->
             ClaimedBucket c p = Go.Err e).
Proof.
  unfold ClaimedBucket. cbv zeta.
  destruct (Client.List c (identity_selector (UniqueBucketLabel p)))
    as [[|x [|y rest]]|e|]; repeat split; try discriminate; try congruence.
Qed.

(** X15: the lookup depends on the provider only through its type (nil
    read as empty), endpoint and path: two providers that agree on these
    resolve to the same claim against any store, whatever their secret
    references are. *)
Theorem ClaimedBucket_same_fields (c : Client.t) (p1 p2 : S3Provider.t) :
  providerType p1 = providerType p2 ->
  S3Provider.Endpoint p1 = S3Provider.Endpoint p2 ->
  S3Provider.Path p1 = S3Provider.Path p2 ->
  ClaimedBucket c p1 = ClaimedBucket c p2.
Proof.
  intros Ht He Hp. unfold ClaimedBucket, UniqueBucketLabel, uniqId.
  rewrite Ht, He, Hp. reflexivity.
Qed.

Lemma ClaimedBucket_same_fields_witness :
  ClaimedBucket (Client.of_objects [Sample.claim "a" Sample.provider]) Sample.provider
  = ClaimedBucket (Client.of_objects [Sample.claim "a" Sample.provider])
                  (S3Provider.mk "bucket/dir" (Some "minio") "http://minio:9000"
                                 (Some "other-secret")).
Proof.
  apply ClaimedBucket_same_fields; reflexivity.
Defined.

End ClaimedBucketResults.

(** ** The failover query under any clock *)

Section FailoverClock.

Lemma StoresFailedFor_loop_sublist now d failed :
  forall i, StoresFailedFor_loop now i failed d [] `sublist_of` failed.
Proof.
  induction failed as [|st rest IH]; intros i; simpl; [constructor|].
  rewrite StoresFailedFor_loop_app.
  destruct (d <=? _); simpl.
  - apply sublist_skip. apply IH.
  - apply sublist_cons. apply IH.
Qed.

Lemma StoresFailedFor_loop_returns now d failed :
  forall i k st,
    nth_error failed k = Some st ->
    d <= Time.Sub (now (i + k)%nat) (Store.LastTransitionTime st) ->
    In st (StoresFailedFor_loop now i failed d []).
Proof.
  induction failed as [|x rest IH]; intros i k st Hk Hd; [destruct k; discriminate|].
  simpl. rewrite StoresFailedFor_loop_app. apply in_or_app.
  destruct k as [|k]; simpl in Hk.
  - injection Hk as ->. left. rewrite Nat.add_0_r in Hd.
    apply Z.leb_le in Hd. rewrite Hd. left. reflexivity.
  - right. apply (IH (S i) k); [exact Hk|].
    rewrite Nat.add_succ_r in Hd. exact Hd.
Qed.

(** X16: whatever the clock does between iterations, [StoresFailedFor]
    returns a subsequence of the failed stores: it invents no store,
    repeats none and keeps their order. *)
Theorem StoresFailedFor_subsequence (now : Time.clock) (s : FailoverStatus.t)
        (d : Time.Duration) :
  fst (StoresFailedFor now s d) `sublist_of` FailoverStatus.FailedStores s.
Proof. unfold StoresFailedFor. simpl. apply StoresFailedFor_loop_sublist. Qed.

(** X17: [StoresFailedFor] reads the clock once per store.  If every
    reading of the call lies between [t0] and [t1], a store recorded at or
    before [t0 - d] is certainly returned and a store recorded after
    [t1 - d] certainly is not. *)
Theorem StoresFailedFor_drifting_clock (now : Time.clock) (t0 t1 : Time.t)
        (s : FailoverStatus.t) (d : Time.Duration) (st : Store.t) :
  (forall i, t0 <= now i <= t1) ->
  Time.minDuration < d <= Time.maxDuration ->
  In st (FailoverStatus.FailedStores s) ->
  (Store.LastTransitionTime st <= t0 - d -> In st (fst (StoresFailedFor now s d))) /\
  (In st (fst (StoresFailedFor now s d)) -> Store.LastTransitionTime st <= t1 - d).
Proof.
  intros Hnow Hd Hin. unfold StoresFailedFor. simpl. split.
  - intros Ht. apply In_nth_error in Hin. destruct Hin as [k Hk].
    apply (StoresFailedFor_loop_returns _ _ _ 0%nat k st Hk).
    apply Z.leb_le. rewrite (Sub_threshold _ _ _ Hd). apply Z.leb_le.
    specialize (Hnow (0 + k)%nat). lia.
  - intros Hret. apply StoresFailedFor_loop_readings in Hret.
    destruct Hret as [k [_ Hk]].
    apply Z.leb_le in Hk. rewrite (Sub_threshold _ _ _ Hd) in Hk. apply Z.leb_le in Hk.
    specialize (Hnow (0 + k)%nat). lia.
Qed.

Lemma StoresFailedFor_drifting_clock_witness :
  In (Store.mk "dn-0" "" 80)
     (fst (StoresFailedFor (fun i => 100 + Z.of_nat (Nat.min i 2))
             (FailoverStatus.mk [Store.mk "dn-1" "" 95; Store.mk "dn-0" "" 80]) 10)).
Proof.
  apply (StoresFailedFor_drifting_clock (fun i => 100 + Z.of_nat (Nat.min i 2)) 100 102
           (FailoverStatus.mk [Store.mk "dn-1" "" 95; Store.mk "dn-0" "" 80]) 10
           (Store.mk "dn-0" "" 80)).
  - intros i. lia.
  - rewrite minDuration_value, maxDuration_value. lia.
  - simpl. tauto.
  - simpl. lia.
Defined.

End FailoverClock.

Section FailoverThreshold.

Lemma filter_sublist_implied {A} (p q : A -> bool) (l : list A) :
  (forall x, q x = true -> p x = true) ->
  List.filter q l `sublist_of` List.filter p l.
Proof.
  intros Hpq. induction l as [|x rest IH]; simpl; [constructor|].
  destruct (q x) eqn:Hq.
  - rewrite (Hpq x Hq). apply sublist_skip. exact IH.
  - destruct (p x); [apply sublist_cons|]; exact IH.
Qed.

(** X18: raising the threshold never adds a store: while the clock reads
    one value, the stores failed for [d2] are a subsequence of the stores
    failed for any smaller [d1]. *)
Theorem StoresFailedFor_threshold_monotone (now : Time.clock) (t0 : Time.t)
        (s : FailoverStatus.t) (d1 d2 : Time.Duration) :
  (forall i, now i = t0) ->
  Time.minDuration < d1 -> d1 <= d2 -> d2 <= Time.maxDuration ->
  fst (StoresFailedFor now s d2) `sublist_of` fst (StoresFailedFor now s d1).
Proof.
  intros Hnow H1 H12 H2. unfold StoresFailedFor. simpl.
  rewrite (StoresFailedFor_loop_steady now t0 d2) by (try assumption; lia).
  rewrite (StoresFailedFor_loop_steady now t0 d1) by (try assumption; lia).
  apply filter_sublist_implied. intros st Hst.
  apply Z.leb_le in Hst. apply Z.leb_le. lia.
Qed.

Lemma StoresFailedFor_threshold_monotone_witness :
  fst (StoresFailedFor (fun _ => 100)
         (FailoverStatus.mk [Store.mk "dn-0" "" 80; Store.mk "dn-1" "" 95]) 15)
  `sublist_of`
  fst (StoresFailedFor (fun _ => 100)
         (FailoverStatus.mk [Store.mk "dn-0" "" 80; Store.mk "dn-1" "" 95]) 5).
Proof.
  apply (StoresFailedFor_threshold_monotone (fun _ => 100) 100);
    first [reflexivity | rewrite ?minDuration_value, ?maxDuration_value; lia].
Defined.

End FailoverThreshold.

(** ** Outcomes of [buildDNSetConfigMap] and [syncPods] *)

Section Outcomes.
Context (env : Env.t).

(** X19: [buildDNSetConfigMap] returns a config map only if the log set
    is there, has published a discovery address, the tree has rendered and
    the start script has expanded; the map then carries the metadata of
    the DN set's config map and exactly two entries, the configuration
    file and the entrypoint script. *)
Theorem buildDNSetConfigMap_ok_only_if (dn : DNSet.t) (ls : option LogSet.t)
        (cm : ConfigMap.t) :
  buildDNSetConfigMap env dn ls = Go.Ok cm ->
  exists l addr s script,
    ls = Some l /\
    LogSetStatus.Discovery (LogSet.Status l) = Some addr /\
    Env.ToString env (dnConfig env dn l) = Go.Ok s /\
    Env.Execute env (model.mk (Env.dnServicePort env)
                              (join_path (Env.ConfigPath env) (Env.ConfigFile env))
                              (Env.LockServicePort env)) = Go.Ok script /\
    ConfigMap.Meta cm = Env.ObjMetaTemplate env dn (Env.configMapName env dn) /\
    ConfigMap.Data cm !! Env.Entrypoint env = Some script /\
    (Env.ConfigFile env <> Env.Entrypoint env ->
     ConfigMap.Data cm !! Env.ConfigFile env = Some s) /\
    (forall k, k <> Env.ConfigFile env -> k <> Env.Entrypoint env ->
               ConfigMap.Data cm !! k = None).
Proof.
  unfold buildDNSetConfigMap. destruct ls as [l|]; simpl; [|discriminate].
  destruct (LogSetStatus.Discovery (LogSet.Status l)) as [addr|] eqn:Hd; [|discriminate].
  destruct (Env.ToString env (dnConfig env dn l)) as [s| |] eqn:Hs; simpl;
    try discriminate.
  destruct (Env.Execute env _) as [script| |] eqn:Hx; simpl; try discriminate.
  intros H. injection H as <-.
  exists l, addr, s, script. simpl.
  do 5 (split; [first [reflexivity | assumption]|]). split; [|split].
  - apply lookup_insert_eq.
  - intros Hne. rewrite lookup_insert_ne by congruence. apply lookup_singleton_eq.
  - intros k Hk1 Hk2. rewrite lookup_insert_ne by congruence.
    apply lookup_singleton_ne. congruence.
Qed.

(** X20: once the discovery address is there, a failure to render the
    tree, or to expand the start script after a successful rendering, is
    returned as it is and no config map is built. *)
Theorem buildDNSetConfigMap_errors (dn : DNSet.t) (ls : LogSet.t) (addr : string)
        (e : Go.error) :
  LogSetStatus.Discovery (LogSet.Status ls) = Some addr ->
  (Env.ToString env (dnConfig env dn ls) = Go.Err e ->
   buildDNSetConfigMap env dn (Some ls) = Go.Err e) /\
  (forall s,
      Env.ToString env (dnConfig env dn ls) = Go.Ok s ->
      Env.Execute env (model.mk (Env.dnServicePort env)
                                (join_path (Env.ConfigPath env) (Env.ConfigFile env))
                                (Env.LockServicePort env)) = Go.Err e ->
      buildDNSetConfigMap env dn (Some ls) = Go.Err e).
Proof.
  intros Hd. unfold buildDNSetConfigMap. simpl. rewrite Hd. split.
  - intros ->. reflexivity.
  - intros s -> Hx. simpl. rewrite Hx. reflexivity.
Qed.

(** X21: the values the reconciler computes are never shadowed: whatever
    the user configuration of the DN set and the file-service settings
    hold, also under the very same keys, the tree reads service type [DN],
    the listen address and the lock-service listen address.  ([Set] and
    [Merge] as the configuration tree is described.) *)
Theorem dnConfig_computed_win (dn : DNSet.t) (ls : LogSet.t) :
  Get ["service-type"] (dnConfig env dn ls) = Some (VString "DN") /\
  Get ["dn"; "listen-address"] (dnConfig env dn ls)
  = Some (VString (Env.getListenAddress env)) /\
  Get ["dn"; "lockservice"; "listen-address"] (dnConfig env dn ls)
  = Some (VString ("0.0.0.0:" +:+ pretty (Env.LockServicePort env))).
Proof. apply dnConfig_computed. Qed.

(** X22: a leaf of the user configuration outside the three tables the
    reconciler writes ([hakeeper-client], [service-type], [dn]) is in the
    rendered tree with the user's value: the file-service settings are
    merged into the user configuration, which wins. *)
Theorem dnConfig_user_leaf_kept (dn : DNSet.t) (ls : LogSet.t) (conf : TomlConfig.t)
        (k : string) (path : list string) (v : value) :
  DNSetSpec.Config (DNSet.Spec dn) = Some conf ->
  k <> "hakeeper-client" -> k <> "service-type" -> k <> "dn" ->
  Get (k :: path) conf = Some v -> is_leaf v = true ->
  Get (k :: path) (dnConfig env dn ls) = Some v.
Proof.
  intros Hc H1 H2 H3 Hget Hleaf. unfold dnConfig. cbv zeta. rewrite Hc.
  rewrite !Get_Set_other_head by congruence.
  apply Get_Merge_leaf; [exact Hleaf|].
  rewrite Get_Set_other_head by congruence. exact Hget.
Qed.

(** X23: [syncPods] never touches the metadata, the replica count or the
    volume claim templates of the stateful set, on any path: normal
    return, error or panic. *)
Theorem syncPods_frame (ctx : Context.t) (sts : StatefulSet.t) :
  StatefulSet.Meta (fst (syncPods env ctx sts)) = StatefulSet.Meta sts /\
  StatefulSet.Replicas (fst (syncPods env ctx sts)) = StatefulSet.Replicas sts /\
  StatefulSet.VolumeClaimTemplates (fst (syncPods env ctx sts))
  = StatefulSet.VolumeClaimTemplates sts.
Proof.
  unfold syncPods.
  destruct (Context.Dep ctx) as [dep|]; simpl; [|repeat split].
  destruct (buildDNSetConfigMap env (Context.Obj ctx) _) as [cm| |]; simpl;
    [|repeat split..].
  unfold syncPodMeta.
  destruct (OverlayPodMeta _ _) as [meta| |]; simpl; [|repeat split..].
  destruct (DNSetDeps.LogSet (DNSet.Deps dep)) as [ls|]; simpl; [|repeat split].
  destruct (Env.SyncConfigMap env ctx _ cm) as [spec r]. repeat split.
Qed.

(** X24: nothing is synchronised without a config map: if
    [buildDNSetConfigMap] fails or panics on the log set of the dependency
    snapshot (a nil log set makes it panic), [syncPods] ends with the same
    outcome and the stateful set as it was. *)
Theorem syncPods_no_config_map (ctx : Context.t) (sts : StatefulSet.t) (dep : DNSet.t) :
  Context.Dep ctx = Some dep ->
  (forall e,
      buildDNSetConfigMap env (Context.Obj ctx) (DNSetDeps.LogSet (DNSet.Deps dep)) = Go.Err e ->
      syncPods env ctx sts = (sts, Go.Err e)) /\
  (buildDNSetConfigMap env (Context.Obj ctx) (DNSetDeps.LogSet (DNSet.Deps dep)) = Go.Panic ->
   syncPods env ctx sts = (sts, Go.Panic)) /\
  (DNSetDeps.LogSet (DNSet.Deps dep) = None -> syncPods env ctx sts = (sts, Go.Panic)).
Proof.
  intros Hdep. unfold syncPods. rewrite Hdep. simpl. split; [|split].
  - intros e ->. reflexivity.
  - intros ->. reflexivity.
  - intros ->. reflexivity.
Qed.

(** X25: when the config map is built and the pod metadata takes the
    overlay, [syncPods] leaves in the stateful set the overlaid metadata
    and the pod spec that [SyncConfigMap] makes of the generated spec with
    the overlay on top, and returns what [SyncConfigMap] returns. *)
Theorem syncPods_success (ctx : Context.t) (sts : StatefulSet.t) (dep : DNSet.t)
        (ls : LogSet.t) (cm : ConfigMap.t) (meta : ObjectMeta.t) :
  Context.Dep ctx = Some dep ->
  DNSetDeps.LogSet (DNSet.Deps dep) = Some ls ->
  buildDNSetConfigMap env (Context.Obj ctx) (Some ls) = Go.Ok cm ->
  OverlayPodMeta (DNSetSpec.Overlay (DNSet.Spec (Context.Obj ctx)))
                 (StatefulSet.TemplateMeta sts) = Go.Ok meta ->
  StatefulSet.TemplateMeta (fst (syncPods env ctx sts)) = meta /\
  StatefulSet.TemplateSpec (fst (syncPods env ctx sts))
  = fst (Env.SyncConfigMap env ctx
           (OverlayPodSpec (DNSetSpec.Overlay (DNSet.Spec (Context.Obj ctx)))
              (syncPodSpec_generated env (Context.Obj ctx)
                 (StatefulSet.mk (StatefulSet.Meta sts) (StatefulSet.Replicas sts) meta
                                 (StatefulSet.TemplateSpec sts)
                                 (StatefulSet.VolumeClaimTemplates sts))
                 (LogSetSpec.SharedStorage (LogSet.Spec ls))))
           cm) /\
  snd (syncPods env ctx sts)
  = snd (Env.SyncConfigMap env ctx
           (OverlayPodSpec (DNSetSpec.Overlay (DNSet.Spec (Context.Obj ctx)))
              (syncPodSpec_generated env (Context.Obj ctx)
                 (StatefulSet.mk (StatefulSet.Meta sts) (StatefulSet.Replicas sts) meta
                                 (StatefulSet.TemplateSpec sts)
                                 (StatefulSet.VolumeClaimTemplates sts))
                 (LogSetSpec.SharedStorage (LogSet.Spec ls))))
           cm).
Proof.
  intros Hdep Hls Hcm Hmeta. unfold syncPods. rewrite Hdep.
  cbn [Go.deref]. rewrite Hls, Hcm.
  unfold syncPodMeta. rewrite Hmeta.
  cbn [mbind result_bind Go.bind Go.deref]. rewrite syncPodSpec_layers.
  cbn [StatefulSet.TemplateSpec StatefulSet.Meta StatefulSet.Replicas
       StatefulSet.TemplateMeta StatefulSet.VolumeClaimTemplates].
  destruct (Env.SyncConfigMap env ctx _ cm) as [spec r]. repeat split.
Qed.

End Outcomes.

(** ** The extras at concrete inputs *)

Lemma buildDNSetConfigMap_ok_only_if_witness :
  exists l addr,
    Some Sample.logset_ready = Some l /\
    LogSetStatus.Discovery (LogSet.Status l) = Some addr.
Proof.
  assert (H : buildDNSetConfigMap Sample.env (Sample.dnset None) (Some Sample.logset_ready)
              = Go.Ok Fixtures.sample_config_map) by (vm_compute; reflexivity).
  destruct (buildDNSetConfigMap_ok_only_if Sample.env _ _ _ H)
    as [l [addr [s [script [H1 [H2 _]]]]]].
  exists l, addr. split; assumption.
Defined.

Lemma buildDNSetConfigMap_errors_witness :
  buildDNSetConfigMap Fixtures.env_unrenderable (Sample.dnset None)
                      (Some Sample.logset_ready)
  = Go.Err "toml: cannot encode".
Proof.
  apply (buildDNSetConfigMap_errors Fixtures.env_unrenderable (Sample.dnset None)
           Sample.logset_ready Sample.discovery_address "toml: cannot encode");
    reflexivity.
Defined.

Lemma dnConfig_user_leaf_kept_witness :
  Get ["log"; "level"]
      (dnConfig Sample.env Fixtures.dnset_configured Sample.logset_ready)
  = Some (VString "debug").
Proof.
  apply (dnConfig_user_leaf_kept Sample.env Fixtures.dnset_configured Sample.logset_ready
           Fixtures.user_conf "log" ["level"] (VString "debug"));
    first [reflexivity | discriminate].
Defined.

(** The user's [service-type] is overwritten, as a computed value is. *)
Example dnConfig_user_service_type_overwritten :
  Get ["service-type"] Fixtures.user_conf = Some (VString "CN") /\
  Get ["service-type"]
      (dnConfig Sample.env Fixtures.dnset_configured Sample.logset_ready)
  = Some (VString "DN").
Proof. split; vm_compute; reflexivity. Qed.

Lemma syncPods_no_config_map_witness :
  syncPods Sample.env Sample.ctx_pending Sample.sts
  = (Sample.sts, Go.Err "HAKeeper discovery address not ready").
Proof.
  apply (syncPods_no_config_map Sample.env Sample.ctx_pending Sample.sts
           (Sample.dnset (Some (Sample.logset None))));
    reflexivity.
Defined.

Lemma syncPods_success_witness :
  StatefulSet.TemplateMeta (fst (syncPods Sample.env Sample.ctx_ready Sample.sts))
  = ObjectMeta.mk "" "" (Some ∅) (Some ∅).
Proof.
  apply (syncPods_success Sample.env Sample.ctx_ready Sample.sts
           (Sample.dnset (Some Sample.logset_ready)) Sample.logset_ready
           Fixtures.sample_config_map (ObjectMeta.mk "" "" (Some ∅) (Some ∅)));
    reflexivity.
Defined.

(** ** The overlay on the main container and on the volumes, once more *)

Section OverlayMore.

(** X26: applying an overlay to the main container a second time changes
    nothing, provided the overlay names each environment variable and each
    volume mount once. *)
Theorem OverlayMainContainer_idempotent (o : Overlay.t) (c : Container.t) :
  List.NoDup (List.map EnvVar.Name
                (default [] (MainContainerOverlay.Env (Overlay.MainContainerOverlay o)))) ->
  List.NoDup (List.map VolumeMount.Name
                (default [] (MainContainerOverlay.VolumeMounts
                               (Overlay.MainContainerOverlay o)))) ->
  OverlayMainContainer (Some o) (OverlayMainContainer (Some o) c)
  = OverlayMainContainer (Some o) c.
Proof.
  intros Henv Hmounts. unfold OverlayMainContainer. cbv zeta. simpl.
  rewrite !set_ptr_again, !set_slice_again.
  f_equal.
  - destruct (MainContainerOverlay.Env (Overlay.MainContainerOverlay o)) as [env|];
      [|reflexivity].
    apply UpsertListByKey_again. exact Henv.
  - destruct (MainContainerOverlay.VolumeMounts (Overlay.MainContainerOverlay o))
      as [mounts|]; [|reflexivity].
    apply UpsertListByKey_again. exact Hmounts.
  - destruct (MainContainerOverlay.ImagePullPolicy (Overlay.MainContainerOverlay o));
      reflexivity.
Qed.

Lemma OverlayMainContainer_idempotent_witness :
  OverlayMainContainer
    (Some (Overlay.mk
             (MainContainerOverlay.mk None (Some ["-v"]) None
                (Some [EnvVar.mk "GOMAXPROCS" "4" None]) (Some "Always") None None None None)
             None [] None None "" None None None None "" None None None None None None None))
    (OverlayMainContainer
       (Some (Overlay.mk
                (MainContainerOverlay.mk None (Some ["-v"]) None
                   (Some [EnvVar.mk "GOMAXPROCS" "4" None]) (Some "Always") None None None
                   None)
                None [] None None "" None None None None "" None None None None None None
                None))
       (Container.mk "main" "mo:1" [] [] [] [EnvVar.mk "POD_NAME" "" None] "" [] None None
                     None ""))
  = OverlayMainContainer
      (Some (Overlay.mk
               (MainContainerOverlay.mk None (Some ["-v"]) None
                  (Some [EnvVar.mk "GOMAXPROCS" "4" None]) (Some "Always") None None None
                  None)
               None [] None None "" None None None None "" None None None None None None
               None))
      (Container.mk "main" "mo:1" [] [] [] [EnvVar.mk "POD_NAME" "" None] "" [] None None
                    None "").
Proof.
  apply OverlayMainContainer_idempotent.
  - simpl. repeat constructor; simpl; intuition discriminate.
  - simpl. constructor.
Defined.

(** X27: every volume of the overlay is in the resulting pod spec and is
    the volume found there under its name, whatever volumes, of whatever
    names, the pod spec had (the overlay naming each volume once). *)
Theorem OverlayPodSpec_overlay_volume_found (o : Overlay.t) (pod : PodSpec.t)
        (vs : list K8s.Volume.t) (v : K8s.Volume.t) :
  Overlay.Volumes o = Some vs ->
  List.NoDup (List.map K8s.Volume.Name vs) ->
  In v vs ->
  List.find (fun x => String.eqb (K8s.Volume.Name x) (K8s.Volume.Name v))
            (PodSpec.Volumes (OverlayPodSpec (Some o) pod)) = Some v /\
  In v (PodSpec.Volumes (OverlayPodSpec (Some o) pod)).
Proof.
  intros Ho Hnd Hin.
  assert (Hf : List.find (fun x => String.eqb (K8s.Volume.Name x) (K8s.Volume.Name v))
                         (PodSpec.Volumes (OverlayPodSpec (Some o) pod)) = Some v).
  { unfold OverlayPodSpec. simpl. rewrite Ho. unfold Util.UpsertListByKey.
    apply find_fold_new; assumption. }
  split; [exact Hf|]. apply find_some in Hf. apply Hf.
Qed.

Lemma OverlayPodSpec_overlay_volume_found_witness :
  In (K8s.Volume.mk "a" "secret:a2")
     (PodSpec.Volumes
        (OverlayPodSpec
           (Some (Overlay.mk Sample.empty_main_overlay
                    (Some [K8s.Volume.mk "a" "secret:a2"])
                    [] None None "" None None None None "" None None None None None None
                    None))
           (PodSpec.mk [K8s.Volume.mk "a" "x"; K8s.Volume.mk "a" "y"] [] [] None None ""
                       None [] None [] [] "" None [] None []))).
Proof.
  apply (OverlayPodSpec_overlay_volume_found
           (Overlay.mk Sample.empty_main_overlay
              (Some [K8s.Volume.mk "a" "secret:a2"])
              [] None None "" None None None None "" None None None None None None None)
           (PodSpec.mk [K8s.Volume.mk "a" "x"; K8s.Volume.mk "a" "y"] [] [] None None ""
                       None [] None [] [] "" None [] None [])
           [K8s.Volume.mk "a" "secret:a2"] (K8s.Volume.mk "a" "secret:a2")).
  - reflexivity.
  - simpl. repeat constructor. simpl. tauto.
  - simpl. tauto.
Defined.

End OverlayMore.
